(** * go-alert: a shallow embedding of package [alert] (v1/alert.go, v1/option.go)

    The package is a process-wide error-alerting facade.  An error is turned
    into a tracker event (title, level, payload, a list of exception
    descriptions obtained by unwinding the error chain) and handed to two
    sinks, an error tracker (sentry) and a structured logger (slog).

    Go values are embedded as follows.
    - An [error] is an interface value: [None] is the nil interface, [Some e]
      a dynamic value [e] together with the optional method sets the code
      probes with type switches (Title, Frames, Unwrap, Cause).
    - A Go map is [option (gmap string V)]: [None] is the nil map.
    - A pointer that the code compares with nil is an [option], and so is
      a func value, whose call panics when it is nil.
    - A panic is an explicit outcome, next to normal return.
    - The tracker hub and the logger are sinks outside the package: a hub is
      the client bound to it and the calls its scope has received, a logger
      the attributes it carries; what is submitted is appended to the
      [World].
    - The package mutex is taken on entry of every package-level function
      and released by a deferred unlock on every exit, so in the sequential
      executions modelled here it is free at each call and is not part of
      the state. *)

From Stdlib Require Import ZArith String List Lia.
From stdpp Require Import base option list strings gmap fin_maps pretty.

(** ** Collaborators outside the package *)

(** github.com/bww/go-util/v1/debug: the fields of a frame the package reads. *)
Module debug.
Record Frame := MkFrame {
  Line : Z;
  File : string;
  Path : string;
  Name : string;
}.
End debug.

(** github.com/bww/go-router/v2: what the package reads from a request. *)
Module router.
Record Request := MkRequest {
  Method : string;
  URL : string;          (* req.URL.String() *)
  OriginAddr : string;   (* req.OriginAddr() *)
}.
End router.

(** The built-in [error] interface and the capabilities probed by the
    package's type switches.  A capability is [None] when the dynamic type
    lacks the method, and otherwise holds what the method returns. *)
Module errors.
#[warnings="-register-all"] Inductive errval : Type := MkErr {
  Error : string;                          (* err.Error() *)
  TypeOf : string;                         (* reflect.TypeOf(err).String() *)
  Title : option string;                   (* interface{ Title() string } *)
  Frames : option (list debug.Frame);      (* interface{ Frames() []debug.Frame } *)
  Unwrap : option (option errval);         (* interface{ Unwrap() error } *)
  Cause : option (option errval);          (* interface{ Cause() error } *)
}.

(** The interface type: nil or a dynamic value. *)
Definition error := option errval.

(** errors.New *)
Definition New (text : string) : errval :=
  MkErr text "*errors.errorString" None None None None.
End errors.
Import errors(errval, error).

(** What the Go runtime contributes: the values of [interface{}], their
    formatting, and the iteration order of [range] over a map, which is
    unspecified and may differ from one loop to the next (hence the [site],
    the source line of the loop) but visits every entry once. *)
Class Runtime := {
  any : Type;
  box_string : string → any;
  fmt_Sprint : any → string;
  fmt_Errorf : string → list any → errval;
  map_range : ∀ (site : nat) {V : Type}, gmap string V → list (string * V);
  map_range_perm : ∀ site (V : Type) (m : gmap string V),
    map_range site m ≡ₚ map_to_list m;
}.

(** A Go map value; [None] is nil. *)
Definition gomap (V : Type) : Type := option (gmap string V).

Definition len {V} (m : gomap V) : nat :=
  match m with
  | None => 0
  | Some g => size g
  end.

Definition range `{Runtime} (site : nat) {V} (m : gomap V) : list (string * V) :=
  match m with
  | None => []
  | Some g => map_range site g
  end.

(** log/slog: a logger is its handler and the attributes added by [With]. *)
Module slog.
Inductive Level := LevelDebug | LevelInfo | LevelWarn | LevelError.

Section logger.
Context `{Runtime}.

Record Logger := MkLogger {
  handler : nat;
  attrs : list (string * any);
}.

Definition With (l : Logger) (args : list (string * any)) : Logger :=
  {| handler := handler l; attrs := attrs l ++ args |}.

(** One emitted line. *)
Record Record_ := MkRecord {
  logger : Logger;
  level : Level;
  msg : string;
}.
End logger.
End slog.

(** github.com/getsentry/sentry-go *)
Module sentry.
Inductive Level := LevelDebug | LevelInfo | LevelWarning | LevelError | LevelFatal.

Record Frame := MkFrame {
  Lineno : Z;
  Filename : string;
  AbsPath : string;
  Function : string;
}.

(** The zero value, as produced by [make([]sentry.Frame, n)]. *)
Definition zeroFrame : Frame := MkFrame 0 "" "" "".

Record Stacktrace := MkStacktrace {
  Frames : list Frame;
}.

Record Exception := MkException {
  Value : string;
  Type_ : string;
  Stacktrace_ : option Stacktrace;   (* *sentry.Stacktrace *)
}.

Record User := MkUser {
  IPAddress : string;
}.

(** An opaque client handle. *)
Inductive Client := MkClient (id : nat).

(** The calls a scope receives from the package. *)
Inductive ScopeCall :=
| SetTag (key value : string)
| SetRequest (r : router.Request)
| SetUser (u : User).

(** A hub: the bound client and the calls made on its scope so far. *)
Record Hub := MkHub {
  client : option Client;
  scope : list ScopeCall;
}.

Definition BindClient (c : Client) (h : Hub) : Hub :=
  {| client := Some c; scope := scope h |}.

(** [h.Scope().SetTag(..)] and the like: the scope of [h] receives a call. *)
Definition Scope_call (c : ScopeCall) (h : Hub) : Hub :=
  {| client := client h; scope := scope h ++ [c] |}.

(** hub.Clone(): an independent copy of client binding and scope. *)
Definition Clone (h : Hub) : Hub := h.

(** What the recorded calls amount to in the scope's tag table. *)
Definition scope_tags (calls : list ScopeCall) : gmap string string :=
  foldl (λ m c, match c with SetTag k v => <[k:=v]> m | _ => m end) ∅ calls.

Section event.
Context `{Runtime}.

Record Event := MkEvent {
  Level_ : option Level;
  Extra : gomap any;
  Message : string;
  Exception_ : list Exception;
}.

(** sentry.NewEvent(): the fields the package touches start at their zero
    values, except Extra which starts as an empty, non-nil map. *)
Definition NewEvent : Event :=
  {| Level_ := None; Extra := Some ∅; Message := ""; Exception_ := [] |}.
End event.
End sentry.

(** The library functions the package calls on errors. *)
Class Libraries := {
  (* github.com/bww/go-util/v1/errors *)
  errutil_Refstr : error → string;
  (* github.com/getsentry/sentry-go *)
  sentry_ExtractStacktrace : error → option sentry.Stacktrace;
}.

(** ** Outcomes of a call and the process state *)

Inductive panic :=
| PanicValue (v : errval)     (* panic(v) with an error value *)
| NilDereference.             (* a method called on a nil interface *)

Inductive outcome (A : Type) :=
| Returned (a : A)
| Panicked (p : panic).
Arguments Returned {A} a.
Arguments Panicked {A} p.

#[export] Instance outcome_ret : MRet outcome := λ A a, Returned a.
#[export] Instance outcome_bind : MBind outcome := λ A B f m,
  match m with
  | Returned a => f a
  | Panicked p => Panicked p
  end.
#[export] Instance outcome_fmap : FMap outcome := λ A B f m,
  match m with
  | Returned a => Returned (f a)
  | Panicked p => Panicked p
  end.

(** ** Package alert *)
Module alert.
Section package.
Context `{Runtime} `{Libraries}.

Definition ErrReinitialized : errval := errors.New "Cannot initialize more than once".
Definition ErrUnavailable : errval := errors.New "Unavailable".

Definition maxErrorDepth : nat := 3.

(** type Tags map[string]interface{} *)
Definition TagMap : Type := gomap any.

Record Config := MkConfig {
  Sentry : option sentry.Client;
  Logger : option slog.Logger;
  Channel : string;
  Component : string;
  Hostname : string;
  Verbose : bool;
}.

Record Alerter := MkAlerter {
  sentry : option sentry.Client;
  log : option slog.Logger;
  channel : string;
  component : string;
  hostname : string;
  verbose : bool;
}.

(** *** option.go *)

Record Context_ := MkContext {
  Request : option router.Request;
  Tags : TagMap;
  Extra : gomap any;
}.

(** type Option func(c Context) Context: a func value, which is nil
    ([None]) or a function. *)
Definition Option := option (Context_ → Context_).

Definition WithRequest (req : option router.Request) : Option :=
  Some (λ c, {| Request := req; Tags := Tags c; Extra := Extra c |}).

Definition WithTags (tags : TagMap) : Option :=
  Some (λ c, {| Request := Request c; Tags := tags; Extra := Extra c |}).

Definition WithExtra (extra : gomap any) : Option :=
  Some (λ c, {| Request := Request c; Tags := Tags c; Extra := extra |}).

(** [o(cxt)]: calling a nil func value panics. *)
Definition call (o : Option) (cxt : Context_) : outcome Context_ :=
  match o with
  | Some f => Returned (f cxt)
  | None => Panicked NilDereference
  end.

(** *** The process: the package variable [shared], the current hub of the
    tracker library, and what the two sinks have been handed. *)

Record World := MkWorld {
  shared : option Alerter;
  current_hub : sentry.Hub;
  captured : list (sentry.Hub * sentry.Event);
  logged : list slog.Record_;
}.

Definition M (A : Type) : Type := World → outcome A * World.

#[export] Instance M_ret : MRet M := λ A a w, (Returned a, w).
#[export] Instance M_bind : MBind M := λ A B f m w,
  match m w with
  | (Returned a, w') => f a w'
  | (Panicked p, w') => (Panicked p, w')
  end.

Definition go_panic {A} (p : panic) : M A := λ w, (Panicked p, w).
Definition lift {A} (o : outcome A) : M A := λ w, (o, w).
Definition gets {A} (f : World → A) : M A := λ w, (Returned (f w), w).
Definition reads {A} (f : World → outcome A) : M A := λ w, (f w, w).
Definition modify (f : World → World) : M unit := λ w, (Returned tt, f w).

Definition set_shared (a : option Alerter) (w : World) : World :=
  {| shared := a; current_hub := current_hub w;
     captured := captured w; logged := logged w |}.

Definition set_current_hub (h : sentry.Hub) (w : World) : World :=
  {| shared := shared w; current_hub := h;
     captured := captured w; logged := logged w |}.

(** hub.CaptureEvent(event) *)
Definition CaptureEvent (h : sentry.Hub) (ev : sentry.Event) : M unit :=
  modify (λ w, {| shared := shared w; current_hub := current_hub w;
                  captured := captured w ++ [(h, ev)]; logged := logged w |}).

(** log.Error(msg) *)
Definition Logger_Error (l : slog.Logger) (msg : string) : M unit :=
  modify (λ w, {| shared := shared w; current_hub := current_hub w;
                  captured := captured w;
                  logged := logged w ++ [slog.MkRecord l slog.LevelError msg] |}).

(** *** Stack traces (alert.go, lines 217-256) *)

Definition maybeUnwrap (err : error) : error :=
  match err with
  | Some c =>
      match errors.Unwrap c with
      | Some r => r
      | None => err
      end
  | None => err
  end.

Definition convertFrame (e : debug.Frame) : sentry.Frame :=
  {| sentry.Lineno := debug.Line e;
     sentry.Filename := debug.File e;
     sentry.AbsPath := debug.Path e;
     sentry.Function := debug.Name e |}.

(** The loop of convertStacktrace: [i] is the index of the head of [rest] in
    the source slice of length [n]. *)
Fixpoint convertStacktrace_loop (n i : nat) (rest : list debug.Frame)
    (conv : list sentry.Frame) : list sentry.Frame :=
  match rest with
  | [] => conv
  | e :: rest' =>
      convertStacktrace_loop n (S i) rest' (<[n - i - 1 := convertFrame e]> conv)
  end.

Definition convertStacktrace (frames : list debug.Frame) : option sentry.Stacktrace :=
  let conv := replicate (length frames) sentry.zeroFrame in
  Some {| sentry.Frames := convertStacktrace_loop (length frames) 0 frames conv |}.

Definition extractStacktrace (err : error) : error * option sentry.Stacktrace :=
  match err with
  | Some c =>
      match errors.Frames c with
      | Some frames => (maybeUnwrap err, convertStacktrace frames)
      | None => (err, sentry_ExtractStacktrace err)
      end
  | None => (err, sentry_ExtractStacktrace err)
  end.

(** [a[i], a[opp] = a[opp], a[i]] *)
Definition swap {A} (i opp : nat) (a : list A) : list A :=
  match a !! i, a !! opp with
  | Some x, Some y => <[opp := x]> (<[i := y]> a)
  | _, _ => a
  end.

(** The loop of reverse with [n = i + 1]: it runs for i = n-1 down to 0. *)
Fixpoint reverse_loop {A} (n : nat) (a : list A) : list A :=
  match n with
  | 0 => a
  | S i =>
      let opp := length a - 1 - i in
      reverse_loop i (swap i opp a)
  end.

Definition reverse {A} (a : list A) : list A :=
  reverse_loop (length a / 2) a.

(** *** The event builder (alert.go, lines 186-215) *)

(** The type switch closing the loop body: where unwinding goes next. *)
Definition unwrapOrCause (prev : errval) : error :=
  match errors.Unwrap prev with
  | Some r => r
  | None =>
      match errors.Cause prev with
      | Some r => r
      | None => None
      end
  end.

(** The loop of eventFromError with [n = maxErrorDepth - i]. *)
Fixpoint eventFromError_loop (n : nat) (err : error)
    (exception : list sentry.Exception) : outcome (list sentry.Exception) :=
  match n, err with
  | S n', Some _ =>
      let '(err, stack) := extractStacktrace err in
      match err with
      | None => Panicked NilDereference           (* err.Error() on nil *)
      | Some e =>
          let exception := exception ++
            [ {| sentry.Value := errors.Error e;
                 sentry.Type_ := errors.TypeOf e;
                 sentry.Stacktrace_ := stack |} ] in
          eventFromError_loop n' (unwrapOrCause e) exception
      end
  | _, _ => Returned exception
  end.

Definition eventFromError (a : Alerter) (err : error) (lvl : sentry.Level)
    (extra : gomap any) : outcome sentry.Event :=
  let event := sentry.NewEvent in
  let message :=
    match err with
    | Some c =>
        match errors.Title c with
        | Some title => title
        | None => sentry.Message event
        end
    | None => sentry.Message event
    end in
  exception ← eventFromError_loop maxErrorDepth err (sentry.Exception_ event);
  mret {| sentry.Level_ := Some lvl;
          sentry.Extra := extra;
          sentry.Message := message;
          sentry.Exception_ := reverse exception |}.

Definition captureError (a : Alerter) (hub : sentry.Hub) (err : error)
    (extra : gomap any) : M unit :=
  event ← lift (eventFromError a err sentry.LevelError extra);
  CaptureEvent hub event.

(** *** Alerter (alert.go, lines 80-180) *)

Definition New (conf : Config) : M (option Alerter * error) :=
  _ ← match Sentry conf with
      | Some c =>
          hub ← gets current_hub;
          let hub := sentry.BindClient c hub in
          let hub :=
            if decide (Component conf ≠ "")
            then sentry.Scope_call (sentry.SetTag "component" (Component conf)) hub
            else hub in
          let hub :=
            if decide (Hostname conf ≠ "")
            then sentry.Scope_call (sentry.SetTag "host" (Hostname conf)) hub
            else hub in
          modify (set_current_hub hub)
      | None => mret tt
      end;
  let logger :=
    match Logger conf with
    | Some l =>
        let l :=
          if decide (Component conf ≠ "")
          then slog.With l [("component", box_string (Component conf))]
          else l in
        let l :=
          if decide (Hostname conf ≠ "")
          then slog.With l [("host", box_string (Hostname conf))]
          else l in
        Some l
    | None => None
    end in
  mret (Some {| sentry := Sentry conf;
                log := logger;
                channel := Channel conf;
                component := Component conf;
                hostname := Hostname conf;
                verbose := Verbose conf |},
        None).

(** Lines 119-122: the per-call copy of the tracker hub. *)
Definition Error_hub (a : Alerter) (w : World) : option sentry.Hub :=
  match sentry a with
  | Some _ => Some (sentry.Clone (current_hub w))
  | None => None
  end.

(** Lines 123-129: the per-call logger view. *)
Definition Error_log (a : Alerter) (ref : string) : option slog.Logger :=
  if verbose a then
    match log a with
    | Some l =>
        let l := slog.With l [("alert", box_string "error")] in
        Some (if decide (ref ≠ "")
              then slog.With l [("ref", box_string ref)]
              else l)
    | None => None
    end
  else None.

(** Lines 131-134: the options applied in order. *)
Definition zeroContext : Context_ :=
  {| Request := None; Tags := None; Extra := None |}.

Fixpoint Error_context (opts : list Option) (cxt : Context_)
    : outcome Context_ :=
  match opts with
  | [] => Returned cxt
  | o :: opts' =>
      cxt ← call o cxt;
      Error_context opts' cxt
  end.

(** Lines 136-147: the request. *)
Definition Error_request (cxt : Context_) (h : option sentry.Hub)
    (log : option slog.Logger) : option sentry.Hub * option slog.Logger :=
  match Request cxt with
  | Some req =>
      (match h with
       | Some h =>
           let h := sentry.Scope_call (sentry.SetRequest req) h in
           Some (sentry.Scope_call
                   (sentry.SetUser {| sentry.IPAddress := router.OriginAddr req |}) h)
       | None => None
       end,
       match log with
       | Some l =>
           Some (slog.With l
                   [("alert", box_string "error");
                    ("request",
                     box_string (router.Method req +:+ " " +:+ router.URL req))])
       | None => None
       end)
  | None => (h, log)
  end.

(** Lines 149-164: the tags. *)
Definition Error_tags (ref : string) (cxt : Context_) (h : option sentry.Hub)
    (log : option slog.Logger) : option sentry.Hub * option slog.Logger :=
  let tags := Tags cxt in
  if decide (0 < len tags) then
    (match h with
     | Some h =>
         let s :=
           foldl (λ s kv, sentry.Scope_call (sentry.SetTag kv.1 (fmt_Sprint kv.2)) s)
                 h (range 152 tags) in
         Some (if decide (ref ≠ "")
               then sentry.Scope_call (sentry.SetTag "ref" ref) s
               else s)
     | None => None
     end,
     match log with
     | Some l => Some (foldl (λ l kv, slog.With l [(kv.1, kv.2)]) l (range 160 tags))
     | None => None
     end)
  else (h, log).

(** Lines 166-172: the extra data. *)
Definition Error_extra (cxt : Context_) (log : option slog.Logger)
    : option slog.Logger :=
  let extra := Extra cxt in
  if decide (0 < len extra) then
    match log with
    | Some l => Some (foldl (λ l kv, slog.With l [(kv.1, kv.2)]) l (range 168 extra))
    | None => None
    end
  else log.

(** Lines 117-172: the values of [h], [log] and [cxt] when dispatch begins. *)
Definition Error_sinks (a : Alerter) (err : error) (opts : list Option)
    (w : World)
    : outcome (option sentry.Hub * option slog.Logger * Context_) :=
  let ref := errutil_Refstr err in
  let h := Error_hub a w in
  let log := Error_log a ref in
  cxt ← Error_context opts zeroContext;
  let '(h, log) := Error_request cxt h log in
  let '(h, log) := Error_tags ref cxt h log in
  let log := Error_extra cxt log in
  mret (h, log, cxt).

Definition Alerter_Error (a : Alerter) (err : error) (opts : list Option) : M unit :=
  '(h, log, cxt) ← reads (Error_sinks a err opts);
  _ ← match h with
      | Some h => captureError a h err (Extra cxt)
      | None => mret tt
      end;
  match log with
  | Some l =>
      if verbose a then
        match err with
        | Some e => Logger_Error l (errors.Error e)
        | None => go_panic NilDereference          (* err.Error() on nil *)
        end
      else mret tt
  | None => mret tt
  end.

Definition Alerter_Errorf (a : Alerter) (f : string) (args : list any) : M unit :=
  Alerter_Error a (Some (fmt_Errorf f args)) [].

(** *** The process registry (alert.go, lines 38-69) *)

Definition Init (conf : Config) : M unit :=
  s ← gets shared;
  match s with
  | Some _ => go_panic (PanicValue ErrReinitialized)
  | None =>
      '(a, err) ← New conf;
      _ ← modify (set_shared a);
      match err with
      | Some e => go_panic (PanicValue e)
      | None => mret tt
      end
  end.

Definition Default (w : World) : option Alerter := shared w.

Definition Errorf (f : string) (args : list any) : M unit :=
  s ← gets shared;
  match s with
  | Some a => Alerter_Errorf a f args
  | None => mret tt
  end.

Definition Error (err : error) (opts : list Option) : M unit :=
  s ← gets shared;
  match s with
  | Some a => Alerter_Error a err opts
  | None => mret tt
  end.

(** The process as it starts: nothing installed, nothing bound, nothing sent. *)
Definition initial : World :=
  {| shared := None;
     current_hub := {| sentry.client := None; sentry.scope := [] |};
     captured := [];
     logged := [] |}.
End package.
End alert.

(** ** Vocabulary of the specification *)

(** The chain of an error: the error, then what the loop's closing type
    switch moves to (Unwrap when exposed, else Cause), and so on. *)
Fixpoint chain (e : errval) : list errval :=
  e :: match e with
       | errors.MkErr _ _ _ _ (Some (Some e')) _ => chain e'
       | errors.MkErr _ _ _ _ (Some None) _ => []
       | errors.MkErr _ _ _ _ None (Some (Some e')) => chain e'
       | errors.MkErr _ _ _ _ None _ => []
       end.

Definition depth (e : errval) : nat := length (chain e).

(** An error the unwinder replaces by its cause: it exposes both the
    frame-list and the Unwrap capability. *)
Definition merges (e : errval) : bool :=
  match errors.Frames e, errors.Unwrap e with
  | Some _, Some _ => true
  | _, _ => false
  end.

(** No error among the first [n] of the chain is replaced by its cause. *)
Definition plain_prefix (n : nat) (e : errval) : bool :=
  forallb (λ x, negb (merges x)) (take n (chain e)).

(** The entries of a Go map, in the canonical order of the map library. *)
Definition entries {V} (m : gomap V) : list (string * V) :=
  match m with
  | None => []
  | Some g => map_to_list g
  end.

Section vocabulary.
Context `{Runtime} `{Libraries}.

(** The description the loop appends in an iteration that starts from the
    error [s] and to which the unwinder hands back the error [d]. *)
Definition entry (s d : errval) : sentry.Exception :=
  {| sentry.Value := errors.Error d;
     sentry.Type_ := errors.TypeOf d;
     sentry.Stacktrace_ := (alert.extractStacktrace (Some s)).2 |}.

(** The description of an error by itself: its message, its type name and
    the stack extracted for it. *)
Definition describe (e : errval) : sentry.Exception := entry e e.


(** The iterations of the loop, as pairs (error the iteration starts from,
    error the unwinder hands back); [None] when the unwinder hands back nil
    in one of them. *)
Fixpoint levels (n : nat) (err : error) : option (list (errval * errval)) :=
  match n, err with
  | S n', Some s =>
      match (alert.extractStacktrace (Some s)).1 with
      | Some d => ((s, d) ::.) <$> levels n' (alert.unwrapOrCause d)
      | None => None
      end
  | _, _ => Some []
  end.

(** The calls the request block makes on the scope, and the attributes it
    adds to the logger view. *)
Definition request_calls (cxt : alert.Context_) : list sentry.ScopeCall :=
  match alert.Request cxt with
  | Some req =>
      [sentry.SetRequest req;
       sentry.SetUser {| sentry.IPAddress := router.OriginAddr req |}]
  | None => []
  end.

Definition request_attrs (cxt : alert.Context_) : list (string * any) :=
  match alert.Request cxt with
  | Some req =>
      [("alert", box_string "error");
       ("request", box_string (router.Method req +:+ " " +:+ router.URL req))]
  | None => []
  end.

(** A tag as the scope receives it. *)
Definition tag_call (kv : string * any) : sentry.ScopeCall :=
  sentry.SetTag kv.1 (fmt_Sprint kv.2).

(** The three provided context options, as data. *)
Inductive mutator :=
| AttachRequest (req : option router.Request)
| AttachTags (tags : alert.TagMap)
| AttachExtra (extra : gomap any).

Definition mutate (m : mutator) : alert.Option :=
  match m with
  | AttachRequest req => alert.WithRequest req
  | AttachTags tags => alert.WithTags tags
  | AttachExtra extra => alert.WithExtra extra
  end.

Definition is_request (m : mutator) : bool :=
  match m with AttachRequest _ => true | _ => false end.
Definition is_tags (m : mutator) : bool :=
  match m with AttachTags _ => true | _ => false end.
Definition is_extra (m : mutator) : bool :=
  match m with AttachExtra _ => true | _ => false end.
End vocabulary.

(** An error for which the unwinder hands back nil: it exposes the
    frame-list capability and its Unwrap returns nil. *)
Definition unwraps_to_nil (e : errval) : bool :=
  match errors.Frames e, errors.Unwrap e with
  | Some _, Some None => true
  | _, _ => false
  end.

(** No error of the chain is of that sort. *)
Definition sound_chain (e : errval) : bool :=
  forallb (λ x, negb (unwraps_to_nil x)) (chain e).

Section vocabulary_of_sinks.
Context `{Runtime} `{Libraries}.

(** The static labels of a configuration, as New hands them to the scope of
    the current hub and to the logger. *)
Definition label_calls (conf : alert.Config) : list sentry.ScopeCall :=
  (if decide (alert.Component conf = "") then []
   else [sentry.SetTag "component" (alert.Component conf)])
  ++ (if decide (alert.Hostname conf = "") then []
      else [sentry.SetTag "host" (alert.Hostname conf)]).

Definition label_attrs (conf : alert.Config) : list (string * any) :=
  (if decide (alert.Component conf = "") then []
   else [("component", box_string (alert.Component conf))])
  ++ (if decide (alert.Hostname conf = "") then []
      else [("host", box_string (alert.Hostname conf))]).

(** The attributes of the per-call logger view before the context is
    folded in. *)
Definition alert_attrs (ref : string) : list (string * any) :=
  ("alert", box_string "error")
  :: (if decide (ref = "") then [] else [("ref", box_string ref)]).

(** The kind of a provided option, and what it attaches. *)
Definition kind (m : mutator) : nat :=
  match m with
  | AttachRequest _ => 0
  | AttachTags _ => 1
  | AttachExtra _ => 2
  end.

Definition request_of (m : mutator) : option (option router.Request) :=
  match m with AttachRequest req => Some req | _ => None end.
Definition tags_of (m : mutator) : option alert.TagMap :=
  match m with AttachTags tags => Some tags | _ => None end.
Definition extra_of (m : mutator) : option (gomap any) :=
  match m with AttachExtra extra => Some extra | _ => None end.

Definition is_SetTag (c : sentry.ScopeCall) : bool :=
  match c with sentry.SetTag _ _ => true | _ => false end.

(** What calling a provided option does to a context. *)
Definition mutation (m : mutator) (cxt : alert.Context_) : alert.Context_ :=
  match alert.call (mutate m) cxt with
  | Returned cxt' => cxt'
  | Panicked _ => cxt
  end.

(** No option of the sequence is a nil func value. *)
Definition no_nil_option (opts : list alert.Option) : bool :=
  forallb (λ o, match o with Some _ => true | None => false end) opts.
End vocabulary_of_sinks.

(** A stand-in runtime and libraries on which the definitions evaluate. *)
Module demo.
Inductive value := VString (s : string) | VInt (n : Z).

Definition Sprint (v : value) : string :=
  match v with
  | VString s => s
  | VInt n => pretty n
  end.

Definition runtime : Runtime :=
  {| any := value;
     box_string := VString;
     fmt_Sprint := Sprint;
     fmt_Errorf := λ f _, errors.New f;
     map_range := λ _ V m, map_to_list m;
     map_range_perm := λ _ V m, reflexivity (map_to_list m) |}.

Definition libraries : Libraries :=
  {| errutil_Refstr := λ err,
       match err with
       | Some e => default "" (errors.Title e)
       | None => ""
       end;
     sentry_ExtractStacktrace := λ _, None |}.

Definition frame1 : debug.Frame := debug.MkFrame 10 "a.go" "/src/a.go" "main.f".
Definition frame2 : debug.Frame := debug.MkFrame 20 "b.go" "/src/b.go" "main.g".
Definition frame3 : debug.Frame := debug.MkFrame 30 "c.go" "/src/c.go" "main.h".

(** A plain error, as made by errors.New. *)
Definition inner : errval := errors.New "inner".

(** A wrapper that carries frames and unwraps to [inner]. *)
Definition traced : errval :=
  errors.MkErr "outer" "*errors.traced" None (Some [frame1; frame2; frame3])
               (Some (Some inner)) None.

(** A wrapper that carries frames and whose Unwrap returns nil. *)
Definition traced_nil : errval :=
  errors.MkErr "outer" "*errors.traced" None (Some [frame1]) (Some None) None.

(** Plain wrappers without frames, nested four deep. *)
Definition wrap (text : string) (e : errval) : errval :=
  errors.MkErr text "*fmt.wrapError" None None (Some (Some e)) None.
Definition deep : errval := wrap "d1" (wrap "d2" (wrap "d3" inner)).

Definition titled : errval :=
  errors.MkErr "boom" "*app.Failure" (Some "Boom") None None (Some (Some inner)).

Definition config : alert.Config (H := runtime) :=
  alert.MkConfig (H := runtime) (Some (sentry.MkClient 1))
    (Some (slog.MkLogger (H := runtime) 1 [])) "chan" "api" "host1" true.

(** The Alerter that Init installs for [config], and the process after it. *)
Definition alerter : alert.Alerter (H := runtime) :=
  alert.MkAlerter (H := runtime) (Some (sentry.MkClient 1))
    (Some (slog.MkLogger (H := runtime) 1
             [("component", VString "api"); ("host", VString "host1")]))
    "chan" "api" "host1" true.

Definition world : alert.World (H := runtime) :=
  alert.MkWorld (H := runtime) (Some alerter)
    (sentry.MkHub (Some (sentry.MkClient 1))
       [sentry.SetTag "component" "api"; sentry.SetTag "host" "host1"])
    [] [].

Definition tags : gmap string value :=
  <["env" := VString "prod"]> (<["n" := VInt 3]> ∅).

Definition opts : list (alert.Option (H := runtime)) :=
  [alert.WithTags (H := runtime) (Some tags)].

Definition request : router.Request := router.MkRequest "GET" "/x" "1.2.3.4".

(** An error without frames whose Unwrap returns nil and whose Cause
    returns [inner]. *)
Definition both : errval :=
  errors.MkErr "both" "*app.Both" None None (Some None) (Some (Some inner)).

(** An Alerter that only logs, and one with no sink at all. *)
Definition logging : alert.Alerter (H := runtime) :=
  alert.MkAlerter (H := runtime) None
    (Some (slog.MkLogger (H := runtime) 2 [])) "chan" "" "" true.

Definition silent : alert.Alerter (H := runtime) :=
  alert.MkAlerter (H := runtime) None
    (Some (slog.MkLogger (H := runtime) 2 [])) "chan" "" "" false.

(** The context [opts] composes to. *)
Definition cxt : alert.Context_ (H := runtime) :=
  alert.MkContext (H := runtime) None (Some tags) None.

(** A tag map with a tag under the key ref, and the option attaching it. *)
Definition ref_tags : gmap string value := <["ref" := VString "abc"]> ∅.

Definition ref_opts : list (alert.Option (H := runtime)) :=
  [alert.WithTags (H := runtime) (Some ref_tags)].

(** A sequence of options with a nil func value. *)
Definition nil_opts : list (alert.Option (H := runtime)) :=
  [alert.WithTags (H := runtime) (Some tags); None].

(** [opts] preceded by an option attaching extra data, and its context. *)
Definition extra_opts : list (alert.Option (H := runtime)) :=
  alert.WithExtra (H := runtime) (Some tags) :: opts.

Definition extra_cxt : alert.Context_ (H := runtime) :=
  alert.MkContext (H := runtime) None (Some tags) (Some tags).

(** The option attaching [request], and its context. *)
Definition request_opts : list (alert.Option (H := runtime)) :=
  [alert.WithRequest (H := runtime) (Some request)].

Definition request_cxt : alert.Context_ (H := runtime) :=
  alert.MkContext (H := runtime) (Some request) None None.
End demo.

(** ** Proofs *)

(** Running a computation of [alert.M]: expose the state passing. *)
Ltac run_M :=
  unfold mbind, alert.M_bind, mret, alert.M_ret, alert.gets, alert.reads,
    alert.modify, alert.lift, alert.go_panic.

Section proofs.
Context `{Runtime} `{Libraries}.

(** *** Slices updated by index *)

Lemma rev_is_reverse {A} (l : list A) : rev l = reverse l.
Proof. unfold reverse. apply rev_alt. Qed.

Lemma swap_length {A} (i opp : nat) (a : list A) :
  length (alert.swap i opp a) = length a.
Proof.
  unfold alert.swap.
  destruct (a !! i), (a !! opp); rewrite ?length_insert; reflexivity.
Qed.

Lemma swap_lookup {A} (i opp k : nat) (a : list A) :
  i < length a → opp < length a →
  alert.swap i opp a !! k =
    if decide (k = opp) then a !! i
    else if decide (k = i) then a !! opp
    else a !! k.
Proof.
  intros Hi Ho. unfold alert.swap.
  destruct (lookup_lt_is_Some_2 a i Hi) as [x Hx].
  destruct (lookup_lt_is_Some_2 a opp Ho) as [y Hy].
  rewrite Hx, Hy.
  destruct (decide (k = opp)) as [->|Hko].
  - rewrite list_lookup_insert_eq by (rewrite length_insert; lia). reflexivity.
  - rewrite list_lookup_insert_ne by congruence.
    destruct (decide (k = i)) as [->|Hki].
    + rewrite list_lookup_insert_eq by lia. reflexivity.
    + rewrite list_lookup_insert_ne by congruence. reflexivity.
Qed.

Lemma reverse_loop_length {A} (n : nat) (a : list A) :
  length (alert.reverse_loop n a) = length a.
Proof.
  revert a. induction n as [|i IH]; intros a; simpl; [reflexivity|].
  rewrite IH. apply swap_length.
Qed.

(** After the iterations i = n-1 .. 0 the first and the last [n] cells have
    been exchanged with their opposites, the middle is untouched. *)
Lemma reverse_loop_lookup {A} (n : nat) (a : list A) (k : nat) :
  2 * n ≤ length a → k < length a →
  alert.reverse_loop n a !! k =
    if decide (k < n ∨ length a - n ≤ k) then a !! (length a - 1 - k)
    else a !! k.
Proof.
  revert a. induction n as [|i IH]; intros a Hn Hk; simpl.
  - destruct (decide _) as [[?|?]|?]; [lia|lia|reflexivity].
  - rewrite IH by (rewrite swap_length; lia).
    rewrite swap_length.
    rewrite !swap_lookup by lia.
    repeat (destruct (decide _)); try lia; try reflexivity;
      try (f_equal; lia).
Qed.

Lemma reverse_is_rev {A} (a : list A) : alert.reverse a = rev a.
Proof.
  rewrite rev_is_reverse. unfold alert.reverse.
  pose proof (Nat.div_mod_eq (length a) 2) as Hdiv.
  pose proof (Nat.mod_upper_bound (length a) 2) as Hmod.
  apply list_eq_same_length with (length a);
    [apply length_reverse | apply reverse_loop_length |].
  intros k x y Hk Hx Hy.
  rewrite reverse_loop_lookup in Hx by lia.
  rewrite reverse_lookup in Hy by lia.
  destruct (decide _) as [_|Hmid].
  - replace (length a - S k) with (length a - 1 - k) in Hy by lia. congruence.
  - replace (length a - S k) with k in Hy by lia. congruence.
Qed.

(** The cells exchanged by reverse exist and differ, so its assignment never
    indexes out of range. *)
Lemma reverse_indices_in_range {A} (a : list A) (i : nat) :
  i < length a / 2 → i < length a - 1 - i < length a.
Proof.
  intros Hi.
  pose proof (Nat.div_mod_eq (length a) 2).
  pose proof (Nat.mod_upper_bound (length a) 2). lia.
Qed.

Lemma convertStacktrace_loop_length (n i : nat) (rest : list debug.Frame)
    (conv : list sentry.Frame) :
  length (alert.convertStacktrace_loop n i rest conv) = length conv.
Proof.
  revert i conv. induction rest as [|e rest IH]; intros i conv; simpl;
    [reflexivity|].
  rewrite IH. apply length_insert.
Qed.

(** Writing the frames [rest], which sit at the source indices
    i, i+1, ..., fills the cells n-i-1, n-i-2, ... of [conv]. *)
Lemma convertStacktrace_loop_lookup (n i : nat) (rest : list debug.Frame)
    (conv : list sentry.Frame) (k : nat) :
  length conv = n → i + length rest ≤ n →
  alert.convertStacktrace_loop n i rest conv !! k =
    if decide (n - i - length rest ≤ k < n - i)
    then alert.convertFrame <$> rest !! (n - i - 1 - k)
    else conv !! k.
Proof.
  revert i conv. induction rest as [|e rest IH]; intros i conv Hlen Hi; simpl in *.
  - destruct (decide _); [lia | reflexivity].
  - rewrite IH by (rewrite ?length_insert; lia).
    destruct (decide (k = n - i - 1)) as [->|Hk].
    + rewrite list_lookup_insert_eq by lia.
      destruct (decide _); [lia|].
      destruct (decide _); [|lia].
      replace (n - i - 1 - (n - i - 1)) with 0 by lia. reflexivity.
    + rewrite list_lookup_insert_ne by congruence.
      destruct (decide _) as [Hin|Hout]; destruct (decide _); try lia;
        try reflexivity.
      replace (n - i - 1 - k) with (S (n - S i - 1 - k)) by lia. reflexivity.
Qed.

Lemma convertStacktrace_frames (frames : list debug.Frame) :
  alert.convertStacktrace frames =
    Some {| sentry.Frames := rev (map alert.convertFrame frames) |}.
Proof.
  unfold alert.convertStacktrace. do 2 f_equal.
  rewrite rev_is_reverse.
  apply list_eq_same_length with (length frames).
  - rewrite length_reverse. apply length_map.
  - rewrite convertStacktrace_loop_length. apply length_replicate.
  - intros k x y Hk Hx Hy.
    rewrite convertStacktrace_loop_lookup in Hx
      by (rewrite ?length_replicate; lia).
    destruct (decide _); [|lia].
    rewrite reverse_lookup in Hy by (rewrite length_map; lia).
    rewrite length_map in Hy.
    change (map alert.convertFrame frames) with (alert.convertFrame <$> frames) in Hy.
    rewrite list_lookup_fmap in Hy.
    replace (length frames - 0 - 1 - k) with (length frames - S k) in Hx by lia.
    congruence.
Qed.

(** *** The unwinding loop *)

#[local] Arguments alert.extractStacktrace : simpl never.
#[local] Arguments alert.unwrapOrCause : simpl never.

Lemma chain_unfold (e : errval) :
  chain e = e :: match alert.unwrapOrCause e with
                 | Some e' => chain e'
                 | None => []
                 end.
Proof. destruct e as [m t ti fr [[u|]|] [[c|]|]]; reflexivity. Qed.

Lemma depth_unfold (e : errval) :
  depth e = S (from_option depth 0 (alert.unwrapOrCause e)).
Proof.
  unfold depth at 1. rewrite chain_unfold. simpl.
  destruct (alert.unwrapOrCause e); reflexivity.
Qed.

Lemma extractStacktrace_plain (e : errval) :
  merges e = false → (alert.extractStacktrace (Some e)).1 = Some e.
Proof.
  unfold merges, alert.extractStacktrace, alert.maybeUnwrap.
  destruct (errors.Frames e); [|reflexivity].
  destruct (errors.Unwrap e); [discriminate | reflexivity].
Qed.

Lemma extractStacktrace_cases (s d : errval) :
  (alert.extractStacktrace (Some s)).1 = Some d →
  d = s ∨ (merges s = true ∧ errors.Unwrap s = Some (Some d)).
Proof.
  unfold merges, alert.extractStacktrace, alert.maybeUnwrap.
  destruct (errors.Frames s); simpl.
  - destruct (errors.Unwrap s) as [r|]; intros Hd.
    + right. split; [reflexivity | congruence].
    + left. congruence.
  - intros Hd. left. congruence.
Qed.


(** The loop appends one entry per level, in the order of the levels. *)
Lemma eventFromError_loop_levels (n : nat) (err : error)
    (acc : list sentry.Exception) :
  alert.eventFromError_loop n err acc =
    match levels n err with
    | Some ls => Returned (acc ++ ((λ sd, entry sd.1 sd.2) <$> ls))
    | None => Panicked NilDereference
    end.
Proof.
  revert err acc. induction n as [|n IH]; intros [s|] acc; simpl;
    rewrite ?app_nil_r; try reflexivity.
  destruct (alert.extractStacktrace (Some s)) as [[d|] stack] eqn:Hstep; simpl;
    [|reflexivity].
  rewrite IH. destruct (levels n (alert.unwrapOrCause d)) as [ls|]; simpl;
    [|reflexivity].
  unfold entry at 2. rewrite Hstep, <- app_assoc. reflexivity.
Qed.

Lemma eventFromError_levels (a : alert.Alerter) (err : error)
    (lvl : sentry.Level) (extra : gomap any) :
  alert.eventFromError a err lvl extra =
    match levels alert.maxErrorDepth err with
    | Some ls =>
        Returned
          {| sentry.Level_ := Some lvl;
             sentry.Extra := extra;
             sentry.Message := default "" (err ≫= errors.Title);
             sentry.Exception_ := rev ((λ sd, entry sd.1 sd.2) <$> ls) |}
    | None => Panicked NilDereference
    end.
Proof.
  unfold alert.eventFromError. rewrite eventFromError_loop_levels.
  destruct (levels alert.maxErrorDepth err) as [ls|]; simpl; [|reflexivity].
  rewrite reverse_is_rev. do 2 f_equal.
  destruct err as [c|]; simpl; [|reflexivity].
  destruct (errors.Title c); reflexivity.
Qed.

Lemma levels_plain (n : nat) (e : errval) :
  plain_prefix n e = true →
  levels n (Some e) = Some ((λ x, (x, x)) <$> take n (chain e)).
Proof.
  unfold plain_prefix. revert e. induction n as [|n IH]; intros e; [reflexivity|].
  rewrite chain_unfold. simpl.
  intros [Hm Hrest]%andb_prop. apply negb_true_iff in Hm.
  rewrite extractStacktrace_plain by exact Hm.
  destruct (alert.unwrapOrCause e) as [e'|].
  - rewrite IH by exact Hrest. reflexivity.
  - destruct n; reflexivity.
Qed.

Lemma levels_length (n : nat) (err : error) (ls : list (errval * errval)) :
  levels n err = Some ls → length ls ≤ min n (from_option depth 0 err).
Proof.
  revert err ls. induction n as [|n IH]; intros [s|] ls; cbn [levels];
    try (intros [= <-]; cbn [length]; lia).
  destruct ((alert.extractStacktrace (Some s)).1) as [d|] eqn:Hd; [|discriminate].
  destruct (levels n (alert.unwrapOrCause d)) as [ls'|] eqn:Hls; [|discriminate].
  intros [= <-]. cbn [length from_option]. apply IH in Hls.
  assert (depth d ≤ depth s) as Hle.
  { destruct (extractStacktrace_cases _ _ Hd) as [->|[_ Hu]]; [lia|].
    rewrite (depth_unfold s). unfold alert.unwrapOrCause. rewrite Hu. simpl. lia. }
  rewrite (depth_unfold d) in Hle. lia.
Qed.

(** *** The options loop *)

Lemma Error_context_panics (opts : list alert.Option) (cxt : alert.Context_)
    (p : panic) :
  alert.Error_context opts cxt = Panicked p → p = NilDereference ∧ None ∈ opts.
Proof.
  revert cxt. induction opts as [|[f|] opts IH]; intros cxt; simpl.
  - discriminate.
  - intros Hrun. destruct (IH _ Hrun) as [-> Hin].
    split; [reflexivity | right; exact Hin].
  - intros [= <-]. split; [reflexivity | left].
Qed.

Lemma Error_context_functions (fs : list (alert.Context_ → alert.Context_))
    (cxt : alert.Context_) :
  alert.Error_context (Some <$> fs) cxt = Returned (foldl (λ c f, f c) cxt fs).
Proof. revert cxt. induction fs as [|f fs IH]; intros cxt; simpl; auto. Qed.

Lemma Error_context_returns (opts : list alert.Option)
    (cxt cxt' : alert.Context_) :
  alert.Error_context opts cxt = Returned cxt' →
  ∃ fs, opts = Some <$> fs ∧ cxt' = foldl (λ c f, f c) cxt fs.
Proof.
  revert cxt. induction opts as [|[f|] opts IH]; intros cxt; simpl.
  - intros [= <-]. exists []. split; reflexivity.
  - intros Hrun. destruct (IH _ Hrun) as (fs & -> & ->).
    exists (f :: fs). split; reflexivity.
  - discriminate.
Qed.

Lemma Error_context_no_nil (opts : list alert.Option) (cxt : alert.Context_) :
  None ∉ opts → ∃ cxt', alert.Error_context opts cxt = Returned cxt'.
Proof.
  intros Hnil. destruct (alert.Error_context opts cxt) as [cxt'|p] eqn:Hrun;
    [eauto|].
  apply Error_context_panics in Hrun as [_ Hin]. contradiction.
Qed.

Lemma Error_sinks_panics (a : alert.Alerter) (err : error)
    (opts : list alert.Option) (w : alert.World) (p : panic) :
  alert.Error_sinks a err opts w = Panicked p →
  p = NilDereference ∧ None ∈ opts.
Proof.
  unfold alert.Error_sinks. cbv zeta.
  destruct (alert.Error_context opts alert.zeroContext) as [cxt|p'] eqn:Hrun;
    simpl.
  - destruct (alert.Error_request _ _ _) as [h log].
    destruct (alert.Error_tags _ _ _ _) as [h' log']. discriminate.
  - intros [= <-]. apply (Error_context_panics _ _ _ Hrun).
Qed.

Lemma Error_sinks_returns (a : alert.Alerter) (err : error)
    (opts : list alert.Option) (w : alert.World) (h : option sentry.Hub)
    (log : option slog.Logger) (cxt : alert.Context_) :
  alert.Error_sinks a err opts w = Returned (h, log, cxt) →
  alert.Error_context opts alert.zeroContext = Returned cxt
  ∧ (is_Some h ↔ is_Some (alert.sentry a)).
Proof.
  unfold alert.Error_sinks, alert.Error_hub. cbv zeta.
  destruct (alert.Error_context opts alert.zeroContext) as [cxt'|p]; simpl;
    [|discriminate].
  unfold alert.Error_request, alert.Error_tags.
  destruct (alert.sentry a), (alert.Request cxt'), (decide (0 < len _));
    simpl; intros [= <- _ <-]; (split; [reflexivity|]);
    split; intros [? ?]; try discriminate; eauto.
Qed.

(** *** Claims about the event builder and the unwinder *)

(** C1 (amended).  The exception list of a built event never has more than
    min(chain depth, maxErrorDepth) entries.  When none of the first
    maxErrorDepth errors of the chain exposes both the frame-list and the
    Unwrap capability, an event is built, its list is the descriptions of
    those errors with the innermost first and the outermost last, and its
    length is the chain depth when that is at most maxErrorDepth and
    maxErrorDepth otherwise. *)
Theorem C1_exception_list_length_and_order (a : alert.Alerter) (e : errval)
    (lvl : sentry.Level) (extra : gomap any) :
  (∀ ev, alert.eventFromError a (Some e) lvl extra = Returned ev →
         length (sentry.Exception_ ev) ≤ min (depth e) alert.maxErrorDepth)
  ∧ (plain_prefix alert.maxErrorDepth e = true →
     ∃ ev, alert.eventFromError a (Some e) lvl extra = Returned ev
           ∧ sentry.Exception_ ev =
               rev (describe <$> take alert.maxErrorDepth (chain e))
           ∧ (depth e ≤ alert.maxErrorDepth →
              length (sentry.Exception_ ev) = depth e)
           ∧ (alert.maxErrorDepth < depth e →
              length (sentry.Exception_ ev) = alert.maxErrorDepth)).
Proof.
  split.
  - intros ev. rewrite eventFromError_levels.
    destruct (levels alert.maxErrorDepth (Some e)) as [ls|] eqn:Hls;
      [|discriminate].
    intros [= <-]. cbn [sentry.Exception_].
    apply levels_length in Hls. cbn [from_option] in Hls.
    rewrite length_rev, length_fmap. lia.
  - intros Hplain. rewrite eventFromError_levels.
    rewrite (levels_plain _ _ Hplain). eexists. split; [reflexivity|].
    cbn [sentry.Exception_].
    rewrite <- list_fmap_compose.
    split; [reflexivity|].
    rewrite length_rev, length_fmap, length_take. fold (depth e).
    split; lia.
Qed.


(** C3 (the code departs from the claim).  With a tracker configured, an
    error that exposes the frame-list capability and whose Unwrap returns
    nil makes Error panic: the unwinder hands back nil and the loop calls
    Error() on it. *)
Theorem C3_Error_panics_when_unwrap_returns_nil (a : alert.Alerter)
    (c : sentry.Client) (e : errval) (frames : list debug.Frame)
    (opts : list alert.Option) (w : alert.World) :
  alert.sentry a = Some c →
  errors.Frames e = Some frames →
  errors.Unwrap e = Some None →
  alert.Alerter_Error a (Some e) opts w = (Panicked NilDereference, w)
  ∧ (alert.shared w = Some a →
     alert.Error (Some e) opts w = (Panicked NilDereference, w)).
Proof.
  intros Ha Hf Hu.
  assert (alert.Alerter_Error a (Some e) opts w = (Panicked NilDereference, w))
    as Hpanic.
  { unfold alert.Alerter_Error. run_M.
    destruct (alert.Error_sinks a (Some e) opts w) as [[[h log] cxt]|p] eqn:Hs;
      [|apply Error_sinks_panics in Hs as [-> _]; reflexivity].
    assert (is_Some h) as [hub ->].
    { apply Error_sinks_returns in Hs as [_ Hh]. apply Hh. rewrite Ha. eauto. }
    unfold alert.captureError. run_M.
    rewrite eventFromError_levels.
    assert (levels alert.maxErrorDepth (Some e) = None) as ->; [|reflexivity].
    simpl. unfold alert.extractStacktrace, alert.maybeUnwrap.
    rewrite Hf, Hu. reflexivity. }
  split; [exact Hpanic|].
  intros Hsh. unfold alert.Error. run_M.
  rewrite Hsh. exact Hpanic.
Qed.

(** C4.  For an error that exposes the frame-list capability, the unwinder
    step yields a stack trace with as many frames as the source, whose i-th
    frame is the conversion of the source frame n-1-i, a conversion that
    copies line, file, path and function name; the error it hands back is
    the result of Unwrap when the error exposes Unwrap, and the error itself
    otherwise. *)
Theorem C4_unwinder_step_with_frames (e : errval) (frames : list debug.Frame) :
  errors.Frames e = Some frames →
  ∃ st,
    alert.extractStacktrace (Some e) =
      (match errors.Unwrap e with
       | Some cause => cause
       | None => Some e
       end, Some st)
    ∧ length (sentry.Frames st) = length frames
    ∧ (∀ i, i < length frames →
         sentry.Frames st !! i =
           alert.convertFrame <$> frames !! (length frames - 1 - i))
    ∧ (∀ f, sentry.Lineno (alert.convertFrame f) = debug.Line f
            ∧ sentry.Filename (alert.convertFrame f) = debug.File f
            ∧ sentry.AbsPath (alert.convertFrame f) = debug.Path f
            ∧ sentry.Function (alert.convertFrame f) = debug.Name f).
Proof.
  intros Hf. unfold alert.extractStacktrace, alert.maybeUnwrap. rewrite Hf.
  unfold alert.convertStacktrace. eexists. split; [reflexivity|]. simpl.
  split; [|split].
  - rewrite convertStacktrace_loop_length. apply length_replicate.
  - intros i Hi.
    rewrite convertStacktrace_loop_lookup by (rewrite ?length_replicate; lia).
    destruct (decide _); [|lia].
    f_equal. f_equal. lia.
  - intros f. repeat split.
Qed.

(** C9.  A built event has the level it was asked for, the extra map it was
    given and, as title, the result of Title() when the error exposes it and
    the empty (unset) message otherwise; the event the Alerter submits is
    built at the error level; and an event is built whenever the unwinder
    never hands back nil. *)
Theorem C9_event_level_payload_title (a : alert.Alerter) (e : errval)
    (extra : gomap any) :
  (∀ lvl ev, alert.eventFromError a (Some e) lvl extra = Returned ev →
     sentry.Level_ ev = Some lvl
     ∧ sentry.Extra ev = extra
     ∧ sentry.Message ev = match errors.Title e with
                           | Some title => title
                           | None => ""
                           end)
  ∧ (∀ hub w w', alert.captureError a hub (Some e) extra w = (Returned (), w') →
     ∃ ev, alert.captured w' = alert.captured w ++ [(hub, ev)]
           ∧ sentry.Level_ ev = Some sentry.LevelError
           ∧ sentry.Extra ev = extra
           ∧ sentry.Message ev = match errors.Title e with
                                 | Some title => title
                                 | None => ""
                                 end)
  ∧ (is_Some (levels alert.maxErrorDepth (Some e)) →
     ∃ ev, alert.eventFromError a (Some e) sentry.LevelError extra = Returned ev).
Proof.
  assert (∀ lvl ev, alert.eventFromError a (Some e) lvl extra = Returned ev →
     sentry.Level_ ev = Some lvl ∧ sentry.Extra ev = extra
     ∧ sentry.Message ev = match errors.Title e with
                           | Some title => title
                           | None => ""
                           end) as Hfields.
  { intros lvl ev. rewrite eventFromError_levels.
    destruct (levels _ _); [|discriminate]. intros [= <-]. simpl.
    destruct (errors.Title e); repeat split. }
  split; [exact Hfields|]. split.
  - intros hub w w'. unfold alert.captureError, alert.CaptureEvent. run_M.
    destruct (alert.eventFromError a (Some e) sentry.LevelError extra)
      as [ev|p] eqn:Hev; [|discriminate].
    intros [= <-]. simpl.
    exists ev. split; [reflexivity|]. apply (Hfields _ _ Hev).
  - intros [ls Hls]. rewrite eventFromError_levels, Hls. eauto.
Qed.

(** *** The process registry *)

Lemma New_returns (conf : alert.Config) (w : alert.World) :
  ∃ a w', alert.New conf w = (Returned (Some a, None), w')
          ∧ alert.shared w' = alert.shared w
          ∧ alert.captured w' = alert.captured w
          ∧ alert.logged w' = alert.logged w
          ∧ alert.sentry a = alert.Sentry conf
          ∧ alert.verbose a = alert.Verbose conf.
Proof.
  unfold alert.New. run_M.
  destruct (alert.Sentry conf) as [c|] eqn:Hc; simpl;
    do 2 eexists; (split; [reflexivity|]); simpl; rewrite ?Hc; repeat split.
Qed.

(** C5.  Once a default Alerter is installed, Init panics with
    ErrReinitialized and leaves the process, the installed Alerter included,
    as it was; in particular this is so after an Init that returned. *)
Theorem C5_second_Init_panics (conf : alert.Config) (w : alert.World) :
  (∀ a, alert.shared w = Some a →
        alert.Init conf w = (Panicked (PanicValue alert.ErrReinitialized), w))
  ∧ (∀ conf0 w0, alert.Init conf0 w0 = (Returned (), w) →
        is_Some (alert.Default w)
        ∧ alert.Init conf w = (Panicked (PanicValue alert.ErrReinitialized), w)).
Proof.
  assert (∀ a, alert.shared w = Some a →
    alert.Init conf w = (Panicked (PanicValue alert.ErrReinitialized), w))
    as Hagain.
  { intros a Ha. unfold alert.Init. run_M. rewrite Ha. reflexivity. }
  split; [exact Hagain|].
  intros conf0 w0. unfold alert.Init at 1. run_M.
  destruct (alert.shared w0); [discriminate|].
  destruct (New_returns conf0 w0) as (a & w1 & -> & _).
  intros [= <-].
  split; [eexists; reflexivity|].
  apply (Hagain a). reflexivity.
Qed.

(** C6.  While no Alerter is installed, as in the process that has not
    called Init, the package-level Error and Errorf return normally and
    leave the process, both sinks included, unchanged, and Default() is
    nil. *)
Theorem C6_calls_before_Init_do_nothing (w : alert.World) (err : error)
    (opts : list alert.Option) (f : string) (args : list any) :
  alert.shared w = None →
  alert.Error err opts w = (Returned (), w)
  ∧ alert.Errorf f args w = (Returned (), w)
  ∧ alert.Default w = None.
Proof.
  intros Hw. unfold alert.Error, alert.Errorf, alert.Default. run_M.
  rewrite Hw. repeat split.
Qed.

(** C10.  New returns a non-nil Alerter and a nil error for every
    configuration; so Init panics only with ErrReinitialized, and only when
    an Alerter is already installed; otherwise it returns with an Alerter
    installed. *)
Theorem C10_New_cannot_fail (conf : alert.Config) (w : alert.World) :
  (∃ a w', alert.New conf w = (Returned (Some a, None), w'))
  ∧ (∀ p w', alert.Init conf w = (Panicked p, w') →
       p = PanicValue alert.ErrReinitialized ∧ is_Some (alert.shared w))
  ∧ (alert.shared w = None →
       ∃ a w', alert.Init conf w = (Returned (), w')
               ∧ alert.shared w' = Some a).
Proof.
  destruct (New_returns conf w) as (a & w1 & Hnew & _).
  split; [eauto|]. split.
  - intros p w'. unfold alert.Init. run_M.
    destruct (alert.shared w) as [a0|].
    + intros [= <- _]. eauto.
    + rewrite Hnew. discriminate.
  - intros Hw. unfold alert.Init. run_M. rewrite Hw, Hnew.
    do 2 eexists. split; reflexivity.
Qed.

(** *** The context *)

Lemma Error_context_app (opts1 opts2 : list alert.Option) (cxt : alert.Context_) :
  alert.Error_context (opts1 ++ opts2) cxt =
    alert.Error_context opts1 cxt ≫= alert.Error_context opts2.
Proof.
  revert cxt. induction opts1 as [|[f|] opts1 IH]; intros cxt; simpl;
    [reflexivity | apply IH | reflexivity].
Qed.

Lemma call_mutate (m : mutator) (cxt : alert.Context_) :
  alert.call (mutate m) cxt = Returned (mutation m cxt).
Proof. destruct m; reflexivity. Qed.

Lemma Error_context_mutators (ms : list mutator) (cxt : alert.Context_) :
  alert.Error_context (mutate <$> ms) cxt =
    Returned (foldl (λ c m, mutation m c) cxt ms).
Proof.
  revert cxt. induction ms as [|m ms IH]; intros cxt; [reflexivity|].
  rewrite fmap_cons. cbn [alert.Error_context]. rewrite call_mutate. apply IH.
Qed.

Lemma mutators_keep_request (ms : list mutator) (cxt : alert.Context_) :
  forallb (λ m, negb (is_request m)) ms = true →
  alert.Request (foldl (λ c m, mutation m c) cxt ms) = alert.Request cxt.
Proof.
  revert cxt. induction ms as [|m ms IH]; intros cxt; simpl; [reflexivity|].
  intros [Hm Hms]%andb_prop. rewrite IH by exact Hms.
  destruct m; simpl in *; [discriminate | reflexivity | reflexivity].
Qed.

Lemma mutators_keep_tags (ms : list mutator) (cxt : alert.Context_) :
  forallb (λ m, negb (is_tags m)) ms = true →
  alert.Tags (foldl (λ c m, mutation m c) cxt ms) = alert.Tags cxt.
Proof.
  revert cxt. induction ms as [|m ms IH]; intros cxt; simpl; [reflexivity|].
  intros [Hm Hms]%andb_prop. rewrite IH by exact Hms.
  destruct m; simpl in *; [reflexivity | discriminate | reflexivity].
Qed.

Lemma mutators_keep_extra (ms : list mutator) (cxt : alert.Context_) :
  forallb (λ m, negb (is_extra m)) ms = true →
  alert.Extra (foldl (λ c m, mutation m c) cxt ms) = alert.Extra cxt.
Proof.
  revert cxt. induction ms as [|m ms IH]; intros cxt; simpl; [reflexivity|].
  intros [Hm Hms]%andb_prop. rewrite IH by exact Hms.
  destruct m; simpl in *; [reflexivity | reflexivity | discriminate].
Qed.

(** C8.  The per-call context is the left-to-right fold of the options over
    the zero context (a sequence with a nil func value composes to nothing:
    the loop panics), and Error depends on the options through it only;
    each provided option sets its own field and keeps the other two; in a
    sequence of provided options the last one of a kind decides its field,
    and a field no option addresses keeps its zero value. *)
Theorem C8_context_is_left_fold_last_wins :
  (∀ fs, alert.Error_context (Some <$> fs) alert.zeroContext =
         Returned (foldl (λ c f, f c) alert.zeroContext fs))
  ∧ (∀ opts cxt, alert.Error_context opts alert.zeroContext = Returned cxt →
       ∃ fs, opts = Some <$> fs ∧ cxt = foldl (λ c f, f c) alert.zeroContext fs)
  ∧ (∀ a err opts opts' w,
       alert.Error_context opts alert.zeroContext =
         alert.Error_context opts' alert.zeroContext →
       alert.Alerter_Error a err opts w = alert.Alerter_Error a err opts' w)
  ∧ (∀ req tags extra c,
       alert.call (alert.WithRequest req) c =
         Returned {| alert.Request := req; alert.Tags := alert.Tags c;
                     alert.Extra := alert.Extra c |}
       ∧ alert.call (alert.WithTags tags) c =
           Returned {| alert.Request := alert.Request c; alert.Tags := tags;
                       alert.Extra := alert.Extra c |}
       ∧ alert.call (alert.WithExtra extra) c =
           Returned {| alert.Request := alert.Request c;
                       alert.Tags := alert.Tags c; alert.Extra := extra |})
  ∧ (∀ pre post req,
       forallb (λ m, negb (is_request m)) post = true →
       alert.Request <$> alert.Error_context
         (mutate <$> pre ++ AttachRequest req :: post) alert.zeroContext
       = Returned req)
  ∧ (∀ pre post tags,
       forallb (λ m, negb (is_tags m)) post = true →
       alert.Tags <$> alert.Error_context
         (mutate <$> pre ++ AttachTags tags :: post) alert.zeroContext
       = Returned tags)
  ∧ (∀ pre post extra,
       forallb (λ m, negb (is_extra m)) post = true →
       alert.Extra <$> alert.Error_context
         (mutate <$> pre ++ AttachExtra extra :: post) alert.zeroContext
       = Returned extra)
  ∧ (∀ ms,
       (forallb (λ m, negb (is_request m)) ms = true →
        alert.Request <$> alert.Error_context (mutate <$> ms) alert.zeroContext
        = Returned None)
       ∧ (forallb (λ m, negb (is_tags m)) ms = true →
          alert.Tags <$> alert.Error_context (mutate <$> ms) alert.zeroContext
          = Returned None)
       ∧ (forallb (λ m, negb (is_extra m)) ms = true →
          alert.Extra <$> alert.Error_context (mutate <$> ms) alert.zeroContext
          = Returned None)).
Proof.
  repeat apply conj.
  - intros fs. apply Error_context_functions.
  - intros opts cxt. apply Error_context_returns.
  - intros a err opts opts' w Hsame.
    unfold alert.Alerter_Error, alert.Error_sinks. rewrite Hsame. reflexivity.
  - intros req tags extra c. repeat split.
  - intros pre post req Hpost.
    rewrite Error_context_mutators, foldl_app. simpl.
    rewrite mutators_keep_request by exact Hpost. reflexivity.
  - intros pre post tags Hpost.
    rewrite Error_context_mutators, foldl_app. simpl.
    rewrite mutators_keep_tags by exact Hpost. reflexivity.
  - intros pre post extra Hpost.
    rewrite Error_context_mutators, foldl_app. simpl.
    rewrite mutators_keep_extra by exact Hpost. reflexivity.
  - intros ms. repeat apply conj; intros Hms;
      rewrite Error_context_mutators; simpl.
    + rewrite mutators_keep_request by exact Hms. reflexivity.
    + rewrite mutators_keep_tags by exact Hms. reflexivity.
    + rewrite mutators_keep_extra by exact Hms. reflexivity.
Qed.

(** *** The per-call scope and logger view *)

Lemma range_entries {V} (site : nat) (m : gomap V) : range site m ≡ₚ entries m.
Proof. destruct m as [g|]; simpl; [apply map_range_perm | reflexivity]. Qed.

Lemma range_empty {V} (site : nat) (m : gomap V) :
  ¬ 0 < len m → range site m = [].
Proof.
  intros Hlen. apply Permutation_nil_r. rewrite range_entries.
  destruct m as [g|]; simpl in *; [|reflexivity].
  assert (size g = 0) as ->%map_size_empty_iff by lia.
  rewrite map_to_list_empty. reflexivity.
Qed.

Lemma foldl_SetTag (h : sentry.Hub) (kvs : list (string * any)) :
  foldl (λ s kv, sentry.Scope_call (sentry.SetTag kv.1 (fmt_Sprint kv.2)) s) h kvs =
    {| sentry.client := sentry.client h;
       sentry.scope := sentry.scope h ++ (tag_call <$> kvs) |}.
Proof.
  revert h. induction kvs as [|kv kvs IH]; intros h; simpl.
  - rewrite app_nil_r. destruct h; reflexivity.
  - rewrite IH. simpl. rewrite <- app_assoc. reflexivity.
Qed.

Lemma foldl_With (l : slog.Logger) (kvs : list (string * any)) :
  foldl (λ l kv, slog.With l [(kv.1, kv.2)]) l kvs =
    {| slog.handler := slog.handler l; slog.attrs := slog.attrs l ++ kvs |}.
Proof.
  revert l. induction kvs as [|[k v] kvs IH]; intros l; simpl.
  - rewrite app_nil_r. destruct l; reflexivity.
  - rewrite IH. simpl. rewrite <- app_assoc. reflexivity.
Qed.

(** The tag table the recorded calls amount to. *)
Lemma scope_tags_app (calls1 calls2 : list sentry.ScopeCall) :
  sentry.scope_tags (calls1 ++ calls2) =
    foldl (λ m c, match c with
                  | sentry.SetTag k v => <[k:=v]> m
                  | _ => m
                  end) (sentry.scope_tags calls1) calls2.
Proof. unfold sentry.scope_tags. apply foldl_app. Qed.

Lemma tag_calls_table (m : gmap string string) (kvs : list (string * any))
    (k : string) (v : any) :
  NoDup kvs.*1 → (k, v) ∈ kvs →
  foldl (λ m c, match c with
                | sentry.SetTag k v => <[k:=v]> m
                | _ => m
                end) m (tag_call <$> kvs) !! k = Some (fmt_Sprint v).
Proof.
  induction kvs as [|[k' v'] kvs IH] using rev_ind; intros Hnd Hin.
  - inversion Hin.
  - rewrite fmap_app, foldl_app. simpl.
    rewrite fmap_app in Hnd. apply NoDup_app in Hnd as (Hnd & Hfresh & _).
    apply elem_of_app in Hin as [Hin|Hin].
    + rewrite lookup_insert_ne; [apply IH; assumption|].
      intros ->. apply (Hfresh k); [|simpl; left].
      apply list_elem_of_fmap. exists (k, v). split; [reflexivity | exact Hin].
    + apply list_elem_of_singleton in Hin as [= -> ->]. apply lookup_insert_eq.
Qed.

Lemma tag_calls_table_absent (m : gmap string string)
    (kvs : list (string * any)) (k : string) :
  k ∉ kvs.*1 →
  foldl (λ m c, match c with
                | sentry.SetTag k v => <[k:=v]> m
                | _ => m
                end) m (tag_call <$> kvs) !! k = m !! k.
Proof.
  revert m. induction kvs as [|[k' v'] kvs IH]; intros m; simpl; [reflexivity|].
  rewrite not_elem_of_cons. intros [Hne Hk].
  rewrite IH by exact Hk. apply lookup_insert_ne. congruence.
Qed.

Lemma request_calls_table (m : gmap string string) (cxt : alert.Context_) :
  foldl (λ m c, match c with
                | sentry.SetTag k v => <[k:=v]> m
                | _ => m
                end) m (request_calls cxt) = m.
Proof. unfold request_calls. destruct (alert.Request cxt); reflexivity. Qed.

(** The table after the calls of a request, of the tags of a map and of the
    reference string. *)
Lemma scope_table (base : list sentry.ScopeCall) (cxt : alert.Context_)
    (tags : gmap string any) (tags_h : list (string * any)) (ref k : string) :
  tags_h ≡ₚ map_to_list tags →
  sentry.scope_tags
    (base ++ request_calls cxt ++ (tag_call <$> tags_h)
     ++ (if decide (ref = "") then [] else [sentry.SetTag "ref" ref])) !! k =
    if decide (k = "ref" ∧ ref ≠ "") then Some ref
    else match tags !! k with
         | Some v => Some (fmt_Sprint v)
         | None => sentry.scope_tags base !! k
         end.
Proof.
  intros Hperm.
  assert (NoDup tags_h.*1) as Hnd.
  { rewrite Hperm. apply NoDup_fst_map_to_list. }
  rewrite scope_tags_app, !foldl_app, request_calls_table.
  assert (foldl (λ m c, match c with
                        | sentry.SetTag k v => <[k:=v]> m
                        | _ => m
                        end) (sentry.scope_tags base) (tag_call <$> tags_h) !! k
          = match tags !! k with
            | Some v => Some (fmt_Sprint v)
            | None => sentry.scope_tags base !! k
            end) as Htable.
  { destruct (tags !! k) as [v|] eqn:Hk.
    - apply tag_calls_table; [exact Hnd|].
      rewrite Hperm. apply elem_of_map_to_list. exact Hk.
    - apply tag_calls_table_absent. rewrite Hperm.
      intros [[k' v'] [Hkk' Hin]]%list_elem_of_fmap. simpl in Hkk'. subst k'.
      apply elem_of_map_to_list in Hin. congruence. }
  destruct (decide (ref = "")) as [Hr|Hr]; simpl.
  - destruct (decide _) as [[_ ?]|_]; [contradiction | exact Htable].
  - destruct (decide _) as [[-> _]|Hk].
    + apply lookup_insert_eq.
    + rewrite lookup_insert_ne; [exact Htable|].
      intros <-. apply Hk. split; [reflexivity | exact Hr].
Qed.

(** What the per-call hub and logger view have received when dispatch
    begins, whatever the context the options compose to. *)
Lemma Error_sinks_received (a : alert.Alerter) (err : error)
    (opts : list alert.Option) (w : alert.World) (cxt : alert.Context_) :
  alert.Error_context opts alert.zeroContext = Returned cxt →
  ∃ tags_h tags_l extra_l : list (string * any),
    tags_h ≡ₚ entries (alert.Tags cxt)
    ∧ tags_l ≡ₚ entries (alert.Tags cxt)
    ∧ extra_l ≡ₚ entries (alert.Extra cxt)
    ∧ alert.Error_sinks a err opts w =
        Returned
          ((λ _ : sentry.Client,
              {| sentry.client := sentry.client (alert.current_hub w);
                 sentry.scope :=
                   sentry.scope (alert.current_hub w)
                   ++ request_calls cxt
                   ++ (tag_call <$> tags_h)
                   ++ (if decide (0 < len (alert.Tags cxt))
                       then if decide (errutil_Refstr err = "") then []
                            else [sentry.SetTag "ref" (errutil_Refstr err)]
                       else []) |}) <$> alert.sentry a,
           (λ l0 : slog.Logger,
              {| slog.handler := slog.handler l0;
                 slog.attrs :=
                   slog.attrs l0 ++ request_attrs cxt ++ tags_l ++ extra_l |})
             <$> alert.Error_log a (errutil_Refstr err),
           cxt).
Proof.
  intros Hcxt.
  exists (range 152 (alert.Tags cxt)), (range 160 (alert.Tags cxt)),
         (range 168 (alert.Extra cxt)).
  split; [apply range_entries|]. split; [apply range_entries|].
  split; [apply range_entries|].
  unfold alert.Error_sinks, alert.Error_hub. cbv zeta. rewrite Hcxt.
  unfold mbind, mret, outcome_bind, outcome_ret.
  unfold alert.Error_request, alert.Error_tags, alert.Error_extra,
    request_calls, request_attrs, sentry.Clone.
  destruct (alert.current_hub w) as [cl sc].
  destruct (alert.Error_log a (errutil_Refstr err)) as [[hd at0]|];
    destruct (alert.sentry a) as [c|];
    destruct (alert.Request cxt) as [req|];
    destruct (decide (0 < len (alert.Tags cxt))) as [Ht|Ht];
    destruct (decide (0 < len (alert.Extra cxt))) as [Hx|Hx];
    rewrite ?(range_empty 152 _ Ht), ?(range_empty 160 _ Ht),
      ?(range_empty 168 _ Hx);
    rewrite ?foldl_SetTag, ?foldl_With;
    repeat (destruct (decide _); try congruence; try contradiction);
    unfold sentry.Scope_call, slog.With; simpl;
    rewrite ?app_nil_r, <- ?app_assoc; simpl;
    rewrite ?app_nil_r, <- ?app_assoc; reflexivity.
Qed.

(** C7 (amended).  With a tracker configured and a non-empty tag map in the
    composed context, the per-call scope has received, after what the hub
    already held and the calls of the request, one SetTag per tag with the
    value stringified, then SetTag ref with the reference string when that
    is non-empty, and no call of its own for ref when it is empty.  In the
    resulting tag table the key ref therefore holds the reference string
    when that is non-empty, replacing a tag supplied under that key, and
    otherwise what the tag map or, failing that, the hub supplies for it;
    every other key holds its tag stringified.  The per-call logger view,
    when there is one, has gained every tag with its original value, between
    the attributes of the request and those of the extra data. *)
Theorem C7_tags_reach_scope_and_logger (a : alert.Alerter) (c : sentry.Client)
    (err : error) (opts : list alert.Option) (w : alert.World)
    (cxt : alert.Context_) :
  alert.sentry a = Some c →
  alert.Error_context opts alert.zeroContext = Returned cxt →
  0 < len (alert.Tags cxt) →
  ∃ (tags : gmap string any) (tags_h tags_l extra_l : list (string * any))
    (h : sentry.Hub) (log : option slog.Logger),
    alert.Tags cxt = Some tags
    ∧ tags_h ≡ₚ map_to_list tags
    ∧ tags_l ≡ₚ map_to_list tags
    ∧ extra_l ≡ₚ entries (alert.Extra cxt)
    ∧ alert.Error_sinks a err opts w = Returned (Some h, log, cxt)
    ∧ sentry.scope h =
        sentry.scope (alert.current_hub w)
        ++ request_calls cxt
        ++ ((λ kv, sentry.SetTag kv.1 (fmt_Sprint kv.2)) <$> tags_h)
        ++ (if decide (errutil_Refstr err = "") then []
            else [sentry.SetTag "ref" (errutil_Refstr err)])
    ∧ (∀ k, sentry.scope_tags (sentry.scope h) !! k =
              if decide (k = "ref" ∧ errutil_Refstr err ≠ "")
              then Some (errutil_Refstr err)
              else match tags !! k with
                   | Some v => Some (fmt_Sprint v)
                   | None =>
                       sentry.scope_tags
                         (sentry.scope (alert.current_hub w)) !! k
                   end)
    ∧ (∀ l0, alert.Error_log a (errutil_Refstr err) = Some l0 →
         ∃ l, log = Some l
              ∧ slog.attrs l =
                  slog.attrs l0 ++ request_attrs cxt ++ tags_l ++ extra_l)
    ∧ (alert.Error_log a (errutil_Refstr err) = None → log = None).
Proof.
  intros Ha Hcxt Ht.
  destruct (Error_sinks_received a err opts w cxt Hcxt)
    as (tags_h & tags_l & extra_l & Hh & Hl & Hx & ->).
  destruct (alert.Tags cxt) as [tags|] eqn:Htags; [|simpl in Ht; lia].
  simpl in Hh, Hl.
  exists tags, tags_h, tags_l, extra_l. rewrite Ha. simpl.
  do 2 eexists. split; [reflexivity|]. do 3 (split; [assumption|]).
  split; [reflexivity|]. simpl.
  destruct (decide (0 < size tags)); [|simpl in Ht; contradiction].
  split; [reflexivity|]. split; [|split].
  - intros k. apply scope_table. exact Hh.
  - intros l0 ->. eexists. split; reflexivity.
  - intros ->. reflexivity.
Qed.

(** What the sinks are handed: when the unwinder never hands back nil, Error
    returns, the per-call hub carries the event to the tracker and the
    per-call logger view emits the message of the error. *)
Lemma Alerter_Error_dispatch (a : alert.Alerter) (e : errval)
    (opts : list alert.Option) (w : alert.World) (h : option sentry.Hub)
    (log : option slog.Logger) (cxt : alert.Context_) :
  is_Some (levels alert.maxErrorDepth (Some e)) →
  alert.Error_sinks a (Some e) opts w = Returned (h, log, cxt) →
  ∃ ev,
    alert.eventFromError a (Some e) sentry.LevelError (alert.Extra cxt)
      = Returned ev
    ∧ alert.Alerter_Error a (Some e) opts w =
        (Returned (),
         {| alert.shared := alert.shared w;
            alert.current_hub := alert.current_hub w;
            alert.captured :=
              alert.captured w ++
              match h with
              | Some h => [(h, ev)]
              | None => []
              end;
            alert.logged :=
              alert.logged w ++
              match log with
              | Some l =>
                  if alert.verbose a
                  then [slog.MkRecord l slog.LevelError (errors.Error e)]
                  else []
              | None => []
              end |}).
Proof.
  intros [ls Hls] Hsinks.
  unfold alert.Alerter_Error. run_M. rewrite Hsinks.
  pose proof (eventFromError_levels a (Some e) sentry.LevelError (alert.Extra cxt))
    as Hev.
  rewrite Hls in Hev. eexists. split; [exact Hev|].
  unfold alert.captureError, alert.CaptureEvent, alert.Logger_Error. run_M.
  rewrite Hev.
  destruct w as [sh hub cap lg].
  destruct h, log; try destruct (alert.verbose a); simpl;
    rewrite ?app_nil_r; reflexivity.
Qed.
End proofs.

(** ** The claims on concrete errors *)

Section examples.
#[local] Existing Instance demo.runtime.
#[local] Existing Instance demo.libraries.

Example Init_installs_demo_alerter :
  alert.Init demo.config alert.initial = (Returned (), demo.world).
Proof. reflexivity. Qed.

Example deep_chain_is_cut_at_three :
  sentry.Value <$>
    default [] (match alert.eventFromError demo.alerter (Some demo.deep)
                        sentry.LevelError None with
                | Returned ev => Some (sentry.Exception_ ev)
                | Panicked _ => None
                end) = ["d3"; "d2"; "d1"].
Proof. reflexivity. Qed.

(** Tags env=prod and n=3 on an error whose reference string is Boom: what
    the tracker and the logger are handed. *)
Example Error_with_tags_reaches_both_sinks :
  let w := (alert.Error (Some demo.titled) demo.opts demo.world).2 in
  (sentry.scope ∘ fst <$> alert.captured w,
   (λ r, (slog.attrs (slog.logger r), slog.msg r)) <$> alert.logged w) =
  ([[sentry.SetTag "component" "api"; sentry.SetTag "host" "host1";
     sentry.SetTag "env" "prod"; sentry.SetTag "n" "3";
     sentry.SetTag "ref" "Boom"]],
   [([("component", demo.VString "api"); ("host", demo.VString "host1");
      ("alert", demo.VString "error"); ("ref", demo.VString "Boom");
      ("env", demo.VString "prod"); ("n", demo.VInt 3)], "boom")]).
Proof. vm_compute. reflexivity. Qed.

(** A request GET /x from 1.2.3.4: the user of the scope and the request
    field of the logger view. *)
Example Error_with_request_reaches_both_sinks :
  let w := (alert.Error (Some demo.inner)
              [alert.WithRequest (Some demo.request)] demo.world).2 in
  (sentry.scope ∘ fst <$> alert.captured w,
   (λ r, slog.attrs (slog.logger r)) <$> alert.logged w) =
  ([[sentry.SetTag "component" "api"; sentry.SetTag "host" "host1";
     sentry.SetRequest demo.request;
     sentry.SetUser {| sentry.IPAddress := "1.2.3.4" |}]],
   [[("component", demo.VString "api"); ("host", demo.VString "host1");
     ("alert", demo.VString "error");
     ("alert", demo.VString "error"); ("request", demo.VString "GET /x")]]).
Proof. vm_compute. reflexivity. Qed.

(** C1, as stated, fails on a frame-carrying wrapper around a plain error:
    the chain has depth 2, at most maxErrorDepth, and the event has one
    exception. *)
Lemma C1_counterexample_traced_wrapper :
  ¬ (∀ ev, alert.eventFromError demo.alerter (Some demo.traced)
             sentry.LevelError None = Returned ev →
           (depth demo.traced ≤ alert.maxErrorDepth →
            length (sentry.Exception_ ev) = depth demo.traced)
           ∧ (alert.maxErrorDepth < depth demo.traced →
              length (sentry.Exception_ ev) = alert.maxErrorDepth)).
Proof.
  intros Hclaim.
  destruct (alert.eventFromError demo.alerter (Some demo.traced)
              sentry.LevelError None) as [ev|p] eqn:Hev;
    vm_compute in Hev; [|discriminate].
  injection Hev as <-.
  destruct (Hclaim _ eq_refl) as [Hle _].
  vm_compute in Hle. specialize (Hle ltac:(repeat constructor)).
  discriminate.
Qed.

Lemma C1_witness_four_deep_chain :
  plain_prefix alert.maxErrorDepth demo.deep = true
  ∧ ∃ ev, alert.eventFromError demo.alerter (Some demo.deep)
            sentry.LevelError None = Returned ev
          ∧ sentry.Exception_ ev =
              rev (describe <$> take alert.maxErrorDepth (chain demo.deep))
          ∧ (depth demo.deep ≤ alert.maxErrorDepth →
             length (sentry.Exception_ ev) = depth demo.deep)
          ∧ (alert.maxErrorDepth < depth demo.deep →
             length (sentry.Exception_ ev) = alert.maxErrorDepth).
Proof.
  split; [reflexivity|].
  exact (proj2 (C1_exception_list_length_and_order demo.alerter demo.deep
                  sentry.LevelError None) eq_refl).
Defined.



Lemma C3_witness_nil_unwrap :
  alert.sentry demo.alerter = Some (sentry.MkClient 1)
  ∧ errors.Frames demo.traced_nil = Some [demo.frame1]
  ∧ errors.Unwrap demo.traced_nil = Some None
  ∧ alert.shared demo.world = Some demo.alerter
  ∧ alert.Alerter_Error demo.alerter (Some demo.traced_nil) [] demo.world =
      (Panicked NilDereference, demo.world)
  ∧ alert.Error (Some demo.traced_nil) [] demo.world =
      (Panicked NilDereference, demo.world).
Proof.
  do 4 (split; [reflexivity|]).
  destruct (C3_Error_panics_when_unwrap_returns_nil demo.alerter
              (sentry.MkClient 1) demo.traced_nil [demo.frame1] [] demo.world
              eq_refl eq_refl eq_refl) as [Hmethod Hpackage].
  split; [exact Hmethod | exact (Hpackage eq_refl)].
Defined.

Lemma C4_witness_three_frames :
  errors.Frames demo.traced = Some [demo.frame1; demo.frame2; demo.frame3]
  ∧ ∃ st,
      alert.extractStacktrace (Some demo.traced) =
        (match errors.Unwrap demo.traced with
         | Some cause => cause
         | None => Some demo.traced
         end, Some st)
      ∧ length (sentry.Frames st) = 3
      ∧ (∀ i, i < 3 →
           sentry.Frames st !! i =
             alert.convertFrame <$>
               [demo.frame1; demo.frame2; demo.frame3] !! (3 - 1 - i))
      ∧ (∀ f, sentry.Lineno (alert.convertFrame f) = debug.Line f
              ∧ sentry.Filename (alert.convertFrame f) = debug.File f
              ∧ sentry.AbsPath (alert.convertFrame f) = debug.Path f
              ∧ sentry.Function (alert.convertFrame f) = debug.Name f).
Proof.
  split; [reflexivity|].
  exact (C4_unwinder_step_with_frames demo.traced
           [demo.frame1; demo.frame2; demo.frame3] eq_refl).
Defined.

Lemma C5_witness_second_Init :
  alert.shared demo.world = Some demo.alerter
  ∧ alert.Init demo.config alert.initial = (Returned (), demo.world)
  ∧ alert.Init demo.config demo.world =
      (Panicked (PanicValue alert.ErrReinitialized), demo.world)
  ∧ is_Some (alert.Default demo.world).
Proof.
  do 2 (split; [reflexivity|]).
  destruct (C5_second_Init_panics demo.config demo.world) as [Hagain Hafter].
  split; [exact (Hagain demo.alerter eq_refl)|].
  exact (proj1 (Hafter demo.config alert.initial eq_refl)).
Defined.

Lemma C6_witness_initial_process :
  alert.shared alert.initial = None
  ∧ alert.Error (Some demo.inner) demo.opts alert.initial =
      (Returned (), alert.initial)
  ∧ alert.Errorf "failed" [] alert.initial = (Returned (), alert.initial)
  ∧ alert.Default alert.initial = None.
Proof.
  split; [reflexivity|].
  exact (C6_calls_before_Init_do_nothing alert.initial (Some demo.inner)
           demo.opts "failed" [] eq_refl).
Defined.

Lemma C10_witness_first_Init :
  alert.shared alert.initial = None
  ∧ ∃ a w', alert.Init demo.config alert.initial = (Returned (), w')
            ∧ alert.shared w' = Some a.
Proof.
  split; [reflexivity|].
  exact (proj2 (proj2 (C10_New_cannot_fail demo.config alert.initial)) eq_refl).
Defined.

(** C7, as stated, fails on a tag map with a tag under the key ref and an
    error whose reference string is empty: the scope receives that tag, so
    it has a ref tag although the reference string is empty, whether having
    a tag is read as having received the call or as holding the key. *)
Lemma C7_counterexample_tag_named_ref :
  ¬ (∀ h log cxt,
       alert.Error_sinks demo.alerter (Some demo.inner) demo.ref_opts demo.world
         = Returned (Some h, log, cxt) →
       0 < len (alert.Tags cxt) →
       errutil_Refstr (Some demo.inner) = "" →
       (∀ v, sentry.SetTag "ref" v ∉ sentry.scope h)
       ∨ sentry.scope_tags (sentry.scope h) !! "ref" = None).
Proof.
  intros Hclaim.
  destruct (alert.Error_sinks demo.alerter (Some demo.inner) demo.ref_opts
              demo.world) as [[[[h|] log] cxt]|p] eqn:Hsinks;
    vm_compute in Hsinks; try discriminate.
  injection Hsinks as <- <- <-.
  destruct (Hclaim _ _ _ eq_refl) as [Hcalls|Htable];
    [vm_compute; lia | reflexivity | |].
  - apply (Hcalls "abc"). cbn [sentry.scope].
    do 2 apply list_elem_of_further. apply list_elem_of_here.
  - vm_compute in Htable. discriminate.
Qed.

Lemma C7_witness_env_and_n :
  alert.sentry demo.alerter = Some (sentry.MkClient 1)
  ∧ alert.Error_context demo.opts alert.zeroContext = Returned demo.cxt
  ∧ 0 < len (alert.Tags demo.cxt)
  ∧ ∃ h log tags_h,
      alert.Error_sinks demo.alerter (Some demo.titled) demo.opts demo.world
        = Returned (Some h, log, demo.cxt)
      ∧ tags_h ≡ₚ map_to_list demo.tags
      ∧ sentry.scope h =
          [sentry.SetTag "component" "api"; sentry.SetTag "host" "host1"]
          ++ ((λ kv, sentry.SetTag kv.1 (demo.Sprint kv.2)) <$> tags_h)
          ++ [sentry.SetTag "ref" "Boom"]
      ∧ sentry.scope_tags (sentry.scope h) !! "ref" = Some "Boom".
Proof.
  split; [reflexivity|]. split; [reflexivity|].
  assert (0 < len (alert.Tags demo.cxt)) as Hlen by (vm_compute; lia).
  split; [exact Hlen|].
  destruct (C7_tags_reach_scope_and_logger demo.alerter (sentry.MkClient 1)
              (Some demo.titled) demo.opts demo.world demo.cxt
              eq_refl eq_refl Hlen)
    as (tags & tags_h & tags_l & extra_l & h & log & Htags & Hperm & _ & _
        & Hsinks & Hscope & Htable & _).
  injection Htags as <-.
  exists h, log, tags_h. split; [exact Hsinks|]. split; [exact Hperm|].
  split; [exact Hscope | exact (Htable "ref")].
Defined.

Lemma C8_witness_last_tags_win :
  forallb (λ m, negb (is_tags m)) [AttachRequest None; AttachExtra None] = true
  ∧ alert.Tags <$> alert.Error_context
      (mutate <$> [AttachTags None; AttachExtra (Some demo.tags)]
                  ++ AttachTags (Some demo.tags)
                     :: [AttachRequest None; AttachExtra None])
      alert.zeroContext = Returned (Some demo.tags).
Proof.
  split; [reflexivity|].
  destruct C8_context_is_left_fold_last_wins
    as (_ & _ & _ & _ & _ & Htags & _).
  exact (Htags [AttachTags None; AttachExtra (Some demo.tags)]
           [AttachRequest None; AttachExtra None] (Some demo.tags) eq_refl).
Defined.

Lemma C9_witness_titled_error :
  is_Some (levels alert.maxErrorDepth (Some demo.titled))
  ∧ ∃ ev, alert.eventFromError demo.alerter (Some demo.titled)
            sentry.LevelError (Some demo.tags) = Returned ev
          ∧ sentry.Level_ ev = Some sentry.LevelError
          ∧ sentry.Extra ev = Some demo.tags
          ∧ sentry.Message ev = "Boom".
Proof.
  assert (is_Some (levels alert.maxErrorDepth (Some demo.titled))) as Hlevels
    by (eexists; reflexivity).
  split; [exact Hlevels|].
  destruct (C9_event_level_payload_title demo.alerter demo.titled
              (Some demo.tags)) as (Hfields & _ & Hbuilt).
  destruct (Hbuilt Hlevels) as [ev Hev].
  exists ev. split; [exact Hev|]. exact (Hfields _ _ Hev).
Defined.
End examples.

(** ** Further properties of the package *)

Section further.
Context `{Runtime} `{Libraries}.

#[local] Arguments alert.extractStacktrace : simpl never.
#[local] Arguments alert.unwrapOrCause : simpl never.

(** *** reverse (alert.go, lines 250-256) *)

(** X1.  reverse turns a slice into its reversal, whatever its length: the
    length is kept, the cell k receives the former cell len-1-k, and
    reversing twice gives the slice back. *)
Theorem X1_reverse_is_list_reversal {A} (a : list A) :
  alert.reverse a = rev a
  ∧ length (alert.reverse a) = length a
  ∧ (∀ k, k < length a → alert.reverse a !! k = a !! (length a - 1 - k))
  ∧ alert.reverse (alert.reverse a) = a.
Proof.
  split; [apply reverse_is_rev|]. split; [apply reverse_loop_length|]. split.
  - intros k Hk. rewrite reverse_is_rev, rev_is_reverse, reverse_lookup by lia.
    f_equal. lia.
  - rewrite !reverse_is_rev. apply rev_involutive.
Qed.

(** *** The unwinder and the loop (alert.go, lines 196-233) *)

Lemma extractStacktrace_nil (err : error) :
  (alert.extractStacktrace err).1 = None
  ↔ err = None ∨ ∃ e, err = Some e ∧ unwraps_to_nil e = true.
Proof.
  unfold alert.extractStacktrace, alert.maybeUnwrap, unwraps_to_nil.
  destruct err as [e|]; [|simpl; tauto].
  destruct (errors.Frames e) as [frames|] eqn:Hf;
    [destruct (errors.Unwrap e) as [[d|]|] eqn:Hu|]; simpl;
    (split;
     [ intros Hnil;
       first [ discriminate
             | right; exists e; split; [reflexivity|];
               rewrite ?Hf, ?Hu; reflexivity ]
     | intros [Hnil|(e' & [= <-] & He)]; [discriminate|];
       rewrite ?Hf, ?Hu in He; first [discriminate | reflexivity] ]).
Qed.

(** X2.  The unwinder step hands back a nil error in two cases only: it was
    given nil, or it was given an error that exposes the frame-list
    capability and whose Unwrap returns nil. *)
Theorem X2_unwinder_hands_back_nil_iff (err : error) :
  (alert.extractStacktrace err).1 = None
  ↔ err = None
    ∨ ∃ e frames, err = Some e ∧ errors.Frames e = Some frames
                  ∧ errors.Unwrap e = Some None.
Proof.
  rewrite extractStacktrace_nil. split; (intros [?|Hex]; [left; assumption|right]).
  - destruct Hex as (e & -> & He). unfold unwraps_to_nil in He.
    destruct (errors.Frames e) as [frames|] eqn:Hf; [|discriminate].
    destruct (errors.Unwrap e) as [[d|]|] eqn:Hu; try discriminate. eauto.
  - destruct Hex as (e & frames & -> & Hf & Hu). exists e. split; [reflexivity|].
    unfold unwraps_to_nil. rewrite Hf, Hu. reflexivity.
Qed.

Lemma sound_chain_unfold (e : errval) :
  sound_chain e = negb (unwraps_to_nil e)
                  && from_option sound_chain true (alert.unwrapOrCause e).
Proof.
  unfold sound_chain at 1. rewrite chain_unfold. simpl.
  destruct (alert.unwrapOrCause e); reflexivity.
Qed.

(** On a chain without such an error every iteration finds an error to
    describe. *)
Lemma levels_sound (n : nat) (err : error) :
  from_option sound_chain true err = true → is_Some (levels n err).
Proof.
  revert err. induction n as [|n IH]; intros [e|] Hsound; simpl; eauto.
  simpl in Hsound. rewrite sound_chain_unfold in Hsound.
  apply andb_prop in Hsound as [He Hnext]. apply negb_true_iff in He.
  destruct ((alert.extractStacktrace (Some e)).1) as [d|] eqn:Hd.
  - assert (from_option sound_chain true (alert.unwrapOrCause d) = true)
      as Hd_next.
    { destruct (extractStacktrace_cases _ _ Hd) as [->|[_ Hu]]; [exact Hnext|].
      unfold alert.unwrapOrCause in Hnext at 1. rewrite Hu in Hnext.
      simpl in Hnext. rewrite sound_chain_unfold in Hnext.
      apply andb_prop in Hnext as [_ Hnext]. exact Hnext. }
    destruct (IH _ Hd_next) as [ls ->]. eauto.
  - apply extractStacktrace_nil in Hd as [?|(e' & [= <-] & He')]; congruence.
Qed.

(** A sequence of options composes to a context exactly when none of them
    is nil. *)
Lemma no_nil_option_returns (opts : list alert.Option) (cxt : alert.Context_) :
  no_nil_option opts = true →
  ∃ cxt', alert.Error_context opts cxt = Returned cxt'.
Proof.
  revert cxt. induction opts as [|[f|] opts IH]; intros cxt; simpl.
  - eauto.
  - apply IH.
  - discriminate.
Qed.

Lemma nil_option_panics (opts : list alert.Option) (cxt : alert.Context_) :
  no_nil_option opts = false →
  alert.Error_context opts cxt = Panicked NilDereference.
Proof.
  revert cxt. induction opts as [|[f|] opts IH]; intros cxt; simpl.
  - discriminate.
  - apply IH.
  - reflexivity.
Qed.

Lemma Error_sinks_total (a : alert.Alerter) (err : error)
    (opts : list alert.Option) (w : alert.World) :
  no_nil_option opts = true →
  ∃ h log cxt, alert.Error_sinks a err opts w = Returned (h, log, cxt).
Proof.
  intros Hopts.
  destruct (no_nil_option_returns opts alert.zeroContext Hopts) as [cxt Hcxt].
  destruct (Error_sinks_received a err opts w cxt Hcxt)
    as (? & ? & ? & _ & _ & _ & ->).
  eauto.
Qed.

Lemma Error_sinks_nil_option (a : alert.Alerter) (err : error)
    (opts : list alert.Option) (w : alert.World) :
  no_nil_option opts = false →
  alert.Error_sinks a err opts w = Panicked NilDereference.
Proof.
  intros Hopts. unfold alert.Error_sinks. cbv zeta.
  rewrite (nil_option_panics _ _ Hopts). reflexivity.
Qed.

(** The per-call logger view exists only under verbose logging. *)
Lemma Error_sinks_log_verbose (a : alert.Alerter) (err : error)
    (opts : list alert.Option) (w : alert.World) (h : option sentry.Hub)
    (log : option slog.Logger) (cxt : alert.Context_) :
  alert.Error_sinks a err opts w = Returned (h, log, cxt) →
  is_Some log ↔ alert.verbose a = true ∧ is_Some (alert.log a).
Proof.
  intros Hsinks.
  destruct (Error_sinks_returns _ _ _ _ _ _ _ Hsinks) as [Hcxt _].
  destruct (Error_sinks_received a err opts w cxt Hcxt)
    as (? & ? & ? & _ & _ & _ & Heq).
  rewrite Heq in Hsinks. injection Hsinks as _ <- .
  rewrite fmap_is_Some. unfold alert.Error_log.
  destruct (alert.verbose a); [destruct (alert.log a)|]; split;
    try (intros [? [? ?]]; discriminate);
    try (intros [? ?]; discriminate); eauto.
Qed.

(** X3.  Error returns, for every Alerter and every state, when the error
    is not nil, no error of its chain exposes the frame-list capability with
    an Unwrap that returns nil, and no option is a nil func value.  The
    installed Alerter and the current hub are left as they were; the tracker
    is handed exactly one event when a client is configured and none
    otherwise; the logger emits exactly one line, whose message is the
    message of the error, when there is a per-call view and none
    otherwise. *)
Theorem X3_Error_returns_on_sound_chain (a : alert.Alerter) (e : errval)
    (opts : list alert.Option) (w : alert.World) :
  sound_chain e = true →
  no_nil_option opts = true →
  ∃ w' h log cxt,
    alert.Error_sinks a (Some e) opts w = Returned (h, log, cxt)
    ∧ alert.Alerter_Error a (Some e) opts w = (Returned (), w')
    ∧ alert.shared w' = alert.shared w
    ∧ alert.current_hub w' = alert.current_hub w
    ∧ (is_Some h ↔ is_Some (alert.sentry a))
    ∧ (∃ ev, alert.captured w' =
               alert.captured w ++
               match h with
               | Some h => [(h, ev)]
               | None => []
               end)
    ∧ alert.logged w' =
        alert.logged w ++
        match log with
        | Some l => [slog.MkRecord l slog.LevelError (errors.Error e)]
        | None => []
        end.
Proof.
  intros Hsound Hopts.
  destruct (Error_sinks_total a (Some e) opts w Hopts)
    as (h & log & cxt & Hsinks).
  destruct (Alerter_Error_dispatch a e opts w h log cxt) as (ev & _ & Hrun);
    [apply levels_sound; exact Hsound | exact Hsinks |].
  rewrite Hrun. eexists. exists h, log, cxt.
  split; [exact Hsinks|]. split; [reflexivity|]. simpl.
  split; [reflexivity|]. split; [reflexivity|].
  split; [apply (Error_sinks_returns _ _ _ _ _ _ _ Hsinks)|]. split; [eauto|].
  destruct log as [l|]; [|reflexivity].
  destruct (proj1 (Error_sinks_log_verbose _ _ _ _ _ _ _ Hsinks)) as [-> _];
    [eauto | reflexivity].
Qed.

(** X4.  When Error panics on an error that is not nil, nothing has been
    done: no event submitted, no line logged, the state as it was.  The
    panic is a nil dereference, and it has one of two causes: an option is a
    nil func value, or a tracker client is configured and an error of the
    chain exposes the frame-list capability with an Unwrap that returns
    nil. *)
Theorem X4_panic_leaves_no_trace (a : alert.Alerter) (e : errval)
    (opts : list alert.Option) (w w' : alert.World) (p : panic) :
  alert.Alerter_Error a (Some e) opts w = (Panicked p, w') →
  p = NilDereference
  ∧ w' = w
  ∧ (no_nil_option opts = false
     ∨ (is_Some (alert.sentry a) ∧ sound_chain e = false)).
Proof.
  unfold alert.Alerter_Error. run_M.
  destruct (alert.Error_sinks a (Some e) opts w) as [[[h log] cxt]|p0] eqn:Hsinks.
  - destruct (Error_sinks_returns _ _ _ _ _ _ _ Hsinks) as [_ Hhub].
    unfold alert.captureError, alert.CaptureEvent, alert.Logger_Error. run_M.
    destruct h as [h|].
    + rewrite eventFromError_levels.
      destruct (levels alert.maxErrorDepth (Some e)) as [ls|] eqn:Hls; simpl.
      * destruct log; [destruct (alert.verbose a)|]; discriminate.
      * intros [= <- <-]. split; [reflexivity|]. split; [reflexivity|].
        right. split; [apply Hhub; eauto|].
        destruct (sound_chain e) eqn:Hsound; [|reflexivity].
        destruct (levels_sound alert.maxErrorDepth (Some e) Hsound) as [ls Hls'].
        congruence.
    + destruct log; [destruct (alert.verbose a)|]; discriminate.
  - intros [= <- <-].
    destruct (Error_sinks_panics _ _ _ _ _ Hsinks) as [-> _].
    split; [reflexivity|]. split; [reflexivity|]. left.
    destruct (no_nil_option opts) eqn:Hopts; [|reflexivity].
    destruct (Error_sinks_total a (Some e) opts w Hopts) as (? & ? & ? & Hret).
    congruence.
Qed.

(** Whatever the outcome, a call of Error changes nothing but the sinks. *)
Lemma Alerter_Error_frame (a : alert.Alerter) (err : error)
    (opts : list alert.Option) (w w' : alert.World) (o : outcome ()) :
  alert.Alerter_Error a err opts w = (o, w') →
  alert.shared w' = alert.shared w
  ∧ alert.current_hub w' = alert.current_hub w
  ∧ (∃ cs, alert.captured w' = alert.captured w ++ cs ∧ length cs ≤ 1)
  ∧ (∃ ls, alert.logged w' = alert.logged w ++ ls ∧ length ls ≤ 1).
Proof.
  unfold alert.Alerter_Error. run_M.
  destruct (alert.Error_sinks a err opts w) as [[[h log] cxt]|p0].
  - unfold alert.captureError, alert.CaptureEvent, alert.Logger_Error. run_M.
    destruct h as [h|];
      [destruct (alert.eventFromError a err sentry.LevelError (alert.Extra cxt))|];
      (destruct log as [l|]; [destruct (alert.verbose a); [destruct err|]|]);
      intros [= <- <-]; simpl;
      (split; [reflexivity|]); (split; [reflexivity|]);
      split;
      first [ exists []; rewrite app_nil_r; split; [reflexivity | simpl; lia]
            | eexists [_]; split; [reflexivity | simpl; lia] ].
  - intros [= <- <-]. do 2 (split; [reflexivity|]).
    split; exists []; rewrite app_nil_r; split; try reflexivity; simpl; lia.
Qed.

(** X5.  Once an Alerter is installed, no package-level call replaces or
    clears it, whether the call returns or panics; Error and Errorf also
    leave the current hub as it was, and what the sinks held before the call
    is still there after it. *)
Theorem X5_installed_Alerter_is_never_replaced (a : alert.Alerter)
    (w : alert.World) :
  alert.shared w = Some a →
  (∀ conf, alert.Default (alert.Init conf w).2 = Some a)
  ∧ (∀ err opts,
       alert.Default (alert.Error err opts w).2 = Some a
       ∧ alert.current_hub (alert.Error err opts w).2 = alert.current_hub w
       ∧ alert.captured w `prefix_of` alert.captured (alert.Error err opts w).2
       ∧ alert.logged w `prefix_of` alert.logged (alert.Error err opts w).2)
  ∧ (∀ f args,
       alert.Default (alert.Errorf f args w).2 = Some a
       ∧ alert.current_hub (alert.Errorf f args w).2 = alert.current_hub w
       ∧ alert.captured w `prefix_of` alert.captured (alert.Errorf f args w).2
       ∧ alert.logged w `prefix_of` alert.logged (alert.Errorf f args w).2).
Proof.
  intros Hsh.
  assert (∀ err opts,
    alert.Default (alert.Alerter_Error a err opts w).2 = Some a
    ∧ alert.current_hub (alert.Alerter_Error a err opts w).2 = alert.current_hub w
    ∧ alert.captured w `prefix_of` alert.captured (alert.Alerter_Error a err opts w).2
    ∧ alert.logged w `prefix_of` alert.logged (alert.Alerter_Error a err opts w).2)
    as Hmethod.
  { intros err opts.
    destruct (alert.Alerter_Error a err opts w) as [o w'] eqn:Hrun.
    apply Alerter_Error_frame in Hrun
      as (Hs & Hh & (cs & Hc & _) & (ls & Hl & _)).
    simpl. unfold alert.Default. rewrite Hs, Hh, Hc, Hl.
    repeat split; [exact Hsh | | ]; apply prefix_app_r; reflexivity. }
  split; [|split].
  - intros conf. unfold alert.Init, alert.Default. run_M. rewrite Hsh. exact Hsh.
  - intros err opts. unfold alert.Error. run_M. rewrite Hsh. apply Hmethod.
  - intros f args. unfold alert.Errorf, alert.Alerter_Errorf. run_M.
    rewrite Hsh. apply Hmethod.
Qed.

Lemma eventFromError_nil (a : alert.Alerter) (lvl : sentry.Level)
    (extra : gomap any) :
  alert.eventFromError a None lvl extra =
    Returned {| sentry.Level_ := Some lvl; sentry.Extra := extra;
                sentry.Message := ""; sentry.Exception_ := [] |}.
Proof. reflexivity. Qed.

(** X6.  Error on a nil error, when no option is a nil func value: with a
    client configured the tracker is handed an event at the error level
    with no title and no exception; then the call panics on err.Error() when
    there is a per-call logger view, which is the case exactly under verbose
    logging with a logger, and returns otherwise; no line is logged in
    either case. *)
Theorem X6_Error_on_nil_error (a : alert.Alerter) (opts : list alert.Option)
    (w : alert.World) :
  no_nil_option opts = true →
  ∃ w' h log cxt,
    alert.Error_sinks a None opts w = Returned (h, log, cxt)
    ∧ alert.Alerter_Error a None opts w =
        (match alert.verbose a, alert.log a with
         | true, Some _ => Panicked NilDereference
         | _, _ => Returned ()
         end, w')
    ∧ alert.shared w' = alert.shared w
    ∧ alert.current_hub w' = alert.current_hub w
    ∧ alert.logged w' = alert.logged w
    ∧ alert.captured w' =
        alert.captured w ++
        match h with
        | Some h =>
            [(h, {| sentry.Level_ := Some sentry.LevelError;
                    sentry.Extra := alert.Extra cxt;
                    sentry.Message := "";
                    sentry.Exception_ := [] |})]
        | None => []
        end
    ∧ (is_Some h ↔ is_Some (alert.sentry a)).
Proof.
  intros Hopts.
  destruct (Error_sinks_total a None opts w Hopts) as (h & log & cxt & Hsinks).
  destruct (Error_sinks_returns _ _ _ _ _ _ _ Hsinks) as [_ Hhub].
  pose proof (Error_sinks_log_verbose _ _ _ _ _ _ _ Hsinks) as Hview.
  unfold alert.Alerter_Error. run_M. rewrite Hsinks.
  unfold alert.captureError, alert.CaptureEvent, alert.Logger_Error. run_M.
  rewrite eventFromError_nil.
  destruct log as [l|].
  - destruct (proj1 Hview) as [Hv [l0 Hl0]]; [eauto|]. rewrite Hv, Hl0.
    destruct h; eexists; eexists; exists (Some l), cxt;
      (split; [reflexivity|]); (split; [reflexivity|]); simpl;
      rewrite ?app_nil_r; repeat split; apply Hhub.
  - assert (match alert.verbose a, alert.log a with
            | true, Some _ => Panicked NilDereference
            | _, _ => Returned ()
            end = Returned ()) as ->.
    { destruct (alert.verbose a); [destruct (alert.log a)|]; try reflexivity.
      destruct (proj2 Hview) as [? ?]; [eauto | discriminate]. }
    destruct h; eexists; eexists; exists None, cxt;
      (split; [reflexivity|]); (split; [reflexivity|]); simpl;
      rewrite ?app_nil_r; repeat split; apply Hhub.
Qed.

(** X7.  Without a tracker client, and when no option is a nil func value,
    Error returns on every error that is not nil, whatever its chain:
    nothing is unwound, the tracker is handed nothing, and the logger emits
    one line with the message of the error when there is a per-call view. *)
Theorem X7_Error_without_tracker_returns (a : alert.Alerter) (e : errval)
    (opts : list alert.Option) (w : alert.World) :
  alert.sentry a = None →
  no_nil_option opts = true →
  ∃ w' log cxt,
    alert.Error_sinks a (Some e) opts w = Returned (None, log, cxt)
    ∧ alert.Alerter_Error a (Some e) opts w = (Returned (), w')
    ∧ alert.shared w' = alert.shared w
    ∧ alert.current_hub w' = alert.current_hub w
    ∧ alert.captured w' = alert.captured w
    ∧ alert.logged w' =
        alert.logged w ++
        match log with
        | Some l => [slog.MkRecord l slog.LevelError (errors.Error e)]
        | None => []
        end.
Proof.
  intros Ha Hopts.
  destruct (Error_sinks_total a (Some e) opts w Hopts)
    as (h & log & cxt & Hsinks).
  destruct (Error_sinks_returns _ _ _ _ _ _ _ Hsinks) as [_ Hhub].
  pose proof (Error_sinks_log_verbose _ _ _ _ _ _ _ Hsinks) as Hview.
  destruct h as [h|].
  { rewrite Ha in Hhub. destruct (proj1 Hhub) as [? ?]; [eauto | discriminate]. }
  unfold alert.Alerter_Error. run_M. rewrite Hsinks.
  unfold alert.Logger_Error. run_M.
  destruct log as [l|].
  - destruct (proj1 Hview) as [-> _]; [eauto|].
    eexists. exists (Some l), cxt. split; [reflexivity|].
    split; [reflexivity|]. repeat split.
  - eexists. exists None, cxt. split; [reflexivity|]. split; [reflexivity|].
    simpl. rewrite app_nil_r. destruct w; repeat split.
Qed.

(** X8.  An Alerter with no tracker client and no verbose logger does
    nothing on Error, for every error, nil included, when no option is a
    nil func value: the call returns and the state is as it was. *)
Theorem X8_Error_without_sinks_does_nothing (a : alert.Alerter) (err : error)
    (opts : list alert.Option) (w : alert.World) :
  alert.sentry a = None →
  alert.verbose a = false ∨ alert.log a = None →
  no_nil_option opts = true →
  alert.Alerter_Error a err opts w = (Returned (), w).
Proof.
  intros Ha Hlog Hopts.
  destruct (Error_sinks_total a err opts w Hopts) as (h & log & cxt & Hsinks).
  destruct (Error_sinks_returns _ _ _ _ _ _ _ Hsinks) as [_ Hhub].
  pose proof (Error_sinks_log_verbose _ _ _ _ _ _ _ Hsinks) as Hview.
  unfold alert.Alerter_Error. run_M. rewrite Hsinks.
  destruct h as [h|].
  { rewrite Ha in Hhub. destruct (proj1 Hhub) as [? ?]; [eauto | discriminate]. }
  destruct log as [l|]; [|reflexivity].
  destruct (proj1 Hview) as [Hv [l0 Hl0]]; [eauto|].
  destruct Hlog; congruence.
Qed.

(** X21.  When an option is a nil func value, Error panics with a nil
    dereference for every Alerter, with or without sinks, and every error,
    nil included, and nothing has been done: no event submitted, no line
    logged, the state as it was.  The package-level Error does the same once
    an Alerter is installed. *)
Theorem X21_nil_option_panics (a : alert.Alerter) (err : error)
    (opts : list alert.Option) (w : alert.World) :
  no_nil_option opts = false →
  alert.Alerter_Error a err opts w = (Panicked NilDereference, w)
  ∧ (alert.shared w = Some a →
     alert.Error err opts w = (Panicked NilDereference, w)).
Proof.
  intros Hopts.
  assert (alert.Alerter_Error a err opts w = (Panicked NilDereference, w))
    as Hpanic.
  { unfold alert.Alerter_Error. run_M.
    rewrite (Error_sinks_nil_option a err opts w Hopts). reflexivity. }
  split; [exact Hpanic|].
  intros Hsh. unfold alert.Error. run_M. rewrite Hsh. exact Hpanic.
Qed.

(** *** New and Init (alert.go, lines 38-110) *)

Lemma New_effects (conf : alert.Config) (w : alert.World) :
  alert.New conf w =
    (Returned
       (Some {| alert.sentry := alert.Sentry conf;
                alert.log :=
                  (λ l, {| slog.handler := slog.handler l;
                           slog.attrs := slog.attrs l ++ label_attrs conf |})
                    <$> alert.Logger conf;
                alert.channel := alert.Channel conf;
                alert.component := alert.Component conf;
                alert.hostname := alert.Hostname conf;
                alert.verbose := alert.Verbose conf |}, None),
     {| alert.shared := alert.shared w;
        alert.current_hub :=
          match alert.Sentry conf with
          | Some c =>
              {| sentry.client := Some c;
                 sentry.scope :=
                   sentry.scope (alert.current_hub w) ++ label_calls conf |}
          | None => alert.current_hub w
          end;
        alert.captured := alert.captured w;
        alert.logged := alert.logged w |}).
Proof.
  unfold alert.New, label_attrs, label_calls. run_M.
  unfold alert.set_current_hub, sentry.BindClient, sentry.Scope_call, slog.With.
  destruct w as [sh [cl sc] cap lg].
  destruct (alert.Sentry conf) as [c|], (alert.Logger conf) as [[hd at0]|];
    simpl;
    repeat (destruct (decide _); try congruence; try contradiction);
    simpl; rewrite ?app_nil_r, <- ?app_assoc; reflexivity.
Qed.

(** X9.  New with a tracker client binds the client to the current hub and
    hands its scope the component tag when the component is not empty, then
    the host tag when the hostname is not empty, after what the scope held;
    without a client the hub is untouched.  In both cases New installs
    nothing and hands the sinks nothing. *)
Theorem X9_New_labels_the_current_hub (conf : alert.Config) (w : alert.World) :
  alert.shared (alert.New conf w).2 = alert.shared w
  ∧ alert.captured (alert.New conf w).2 = alert.captured w
  ∧ alert.logged (alert.New conf w).2 = alert.logged w
  ∧ (alert.Sentry conf = None →
     alert.current_hub (alert.New conf w).2 = alert.current_hub w)
  ∧ (∀ c, alert.Sentry conf = Some c →
     sentry.client (alert.current_hub (alert.New conf w).2) = Some c
     ∧ sentry.scope (alert.current_hub (alert.New conf w).2) =
         sentry.scope (alert.current_hub w)
         ++ (if decide (alert.Component conf = "") then []
             else [sentry.SetTag "component" (alert.Component conf)])
         ++ (if decide (alert.Hostname conf = "") then []
             else [sentry.SetTag "host" (alert.Hostname conf)])).
Proof.
  rewrite New_effects. simpl. do 3 (split; [reflexivity|]). split.
  - intros ->. reflexivity.
  - intros c ->. split; reflexivity.
Qed.

(** X10.  The Alerter made by New carries the client, channel, component,
    hostname and verbose flag of the configuration unchanged; its logger is
    nil when the configuration has none, and otherwise the configured
    logger with the component attribute added when the component is not
    empty, then the host attribute when the hostname is not empty. *)
Theorem X10_New_copies_the_configuration (conf : alert.Config) (w : alert.World) :
  ∃ a, (alert.New conf w).1 = Returned (Some a, None)
       ∧ alert.sentry a = alert.Sentry conf
       ∧ alert.channel a = alert.Channel conf
       ∧ alert.component a = alert.Component conf
       ∧ alert.hostname a = alert.Hostname conf
       ∧ alert.verbose a = alert.Verbose conf
       ∧ (alert.Logger conf = None → alert.log a = None)
       ∧ (∀ l0, alert.Logger conf = Some l0 →
            ∃ l, alert.log a = Some l
                 ∧ slog.handler l = slog.handler l0
                 ∧ slog.attrs l =
                     slog.attrs l0
                     ++ (if decide (alert.Component conf = "") then []
                         else [("component", box_string (alert.Component conf))])
                     ++ (if decide (alert.Hostname conf = "") then []
                         else [("host", box_string (alert.Hostname conf))])).
Proof.
  rewrite New_effects. eexists. split; [reflexivity|]. simpl.
  repeat split.
  - intros ->. reflexivity.
  - intros l0 ->. eexists. repeat split.
Qed.

(** X11.  Init on a process without an Alerter returns and installs the
    Alerter New makes for the configuration, handing the sinks nothing;
    from then on Default returns that Alerter and the package-level Error
    and Errorf are its methods. *)
Theorem X11_Init_installs_then_forwards (conf : alert.Config) (w : alert.World) :
  alert.shared w = None →
  ∃ a w', alert.Init conf w = (Returned (), w')
          ∧ (alert.New conf w).1 = Returned (Some a, None)
          ∧ alert.Default w' = Some a
          ∧ alert.current_hub w' = alert.current_hub (alert.New conf w).2
          ∧ alert.captured w' = alert.captured w
          ∧ alert.logged w' = alert.logged w
          ∧ (∀ err opts,
               alert.Error err opts w' = alert.Alerter_Error a err opts w')
          ∧ (∀ f args,
               alert.Errorf f args w' =
                 alert.Alerter_Error a (Some (fmt_Errorf f args)) [] w').
Proof.
  intros Hw. unfold alert.Init, alert.Error, alert.Errorf, alert.Alerter_Errorf,
    alert.Default. run_M.
  rewrite Hw, New_effects. simpl.
  do 2 eexists. split; [reflexivity|]. simpl. repeat split.
Qed.

(** *** The context in the sinks (alert.go, lines 131-172) *)

Lemma tag_calls_are_SetTag (kvs : list (string * any)) :
  forallb is_SetTag (tag_call <$> kvs) = true.
Proof. induction kvs as [|kv kvs IH]; simpl; [reflexivity | exact IH]. Qed.

(** X12.  With a tracker client and a request in the composed context, the
    per-call scope receives, right after what the hub held, SetRequest with
    the request and SetUser with the origin address of the request, and
    after them SetTag calls only; the per-call logger view, when there is
    one, gains alert=error and request=<method> <URL> before anything else.
    With no request in the context the scope receives SetTag calls only. *)
Theorem X12_request_reaches_scope_and_logger (a : alert.Alerter)
    (c : sentry.Client) (err : error) (opts : list alert.Option)
    (w : alert.World) (cxt : alert.Context_) :
  alert.sentry a = Some c →
  alert.Error_context opts alert.zeroContext = Returned cxt →
  ∃ h log tag_calls,
    alert.Error_sinks a err opts w = Returned (Some h, log, cxt)
    ∧ sentry.client h = sentry.client (alert.current_hub w)
    ∧ forallb is_SetTag tag_calls = true
    ∧ (alert.Request cxt = None →
       sentry.scope h = sentry.scope (alert.current_hub w) ++ tag_calls)
    ∧ (∀ req,
         alert.Request cxt = Some req →
         sentry.scope h =
           sentry.scope (alert.current_hub w)
           ++ [sentry.SetRequest req;
               sentry.SetUser {| sentry.IPAddress := router.OriginAddr req |}]
           ++ tag_calls
         ∧ ∀ l0, alert.Error_log a (errutil_Refstr err) = Some l0 →
             ∃ l rest,
               log = Some l
               ∧ slog.attrs l =
                   slog.attrs l0
                   ++ [("alert", box_string "error");
                       ("request",
                        box_string (router.Method req +:+ " " +:+ router.URL req))]
                   ++ rest).
Proof.
  intros Ha Hcxt.
  destruct (Error_sinks_received a err opts w cxt Hcxt)
    as (tags_h & tags_l & extra_l & _ & _ & _ & ->).
  rewrite Ha. simpl. do 2 eexists.
  exists ((tag_call <$> tags_h)
          ++ (if decide (0 < len (alert.Tags cxt))
              then if decide (errutil_Refstr err = "") then []
                   else [sentry.SetTag "ref" (errutil_Refstr err)]
              else [])).
  split; [reflexivity|]. simpl.
  split; [reflexivity|]. split; [|split].
  - rewrite forallb_app, tag_calls_are_SetTag. simpl.
    repeat (destruct (decide _)); reflexivity.
  - unfold request_calls. intros ->. reflexivity.
  - unfold request_calls, request_attrs. intros req ->.
    split; [reflexivity|].
    intros l0 ->. simpl. eexists. eexists. split; [reflexivity|]. simpl.
    reflexivity.
Qed.

Lemma entries_empty {V} (m : gomap V) : len m = 0 → entries m = [].
Proof.
  destruct m as [g|]; simpl; [|reflexivity].
  intros ->%map_size_empty_iff. apply map_to_list_empty.
Qed.

(** X13.  With an empty or nil tag map in the composed context, the
    per-call scope receives no SetTag at all: in particular the reference
    string, even when it is not empty, does not reach the scope as a ref
    tag.  The per-call logger view gains no tag attribute. *)
Theorem X13_no_tags_no_ref_tag (a : alert.Alerter) (c : sentry.Client)
    (err : error) (opts : list alert.Option) (w : alert.World)
    (cxt : alert.Context_) :
  alert.sentry a = Some c →
  alert.Error_context opts alert.zeroContext = Returned cxt →
  len (alert.Tags cxt) = 0 →
  ∃ h log,
    alert.Error_sinks a err opts w = Returned (Some h, log, cxt)
    ∧ sentry.scope h = sentry.scope (alert.current_hub w) ++ request_calls cxt
    ∧ forallb (λ call, negb (is_SetTag call)) (request_calls cxt) = true
    ∧ (∀ l0, alert.Error_log a (errutil_Refstr err) = Some l0 →
         ∃ l extra_l,
           log = Some l
           ∧ extra_l ≡ₚ entries (alert.Extra cxt)
           ∧ slog.attrs l = slog.attrs l0 ++ request_attrs cxt ++ extra_l).
Proof.
  intros Ha Hcxt Hlen.
  destruct (Error_sinks_received a err opts w cxt Hcxt)
    as (tags_h & tags_l & extra_l & Hh & Hl & Hx & ->).
  rewrite (entries_empty _ Hlen) in Hh, Hl.
  apply Permutation_nil_r in Hh, Hl. subst tags_h tags_l.
  rewrite Ha. simpl. do 2 eexists. split; [reflexivity|]. simpl.
  destruct (decide (0 < len _)); [lia|]. rewrite !app_nil_r.
  split; [reflexivity|]. split.
  - unfold request_calls. destruct (alert.Request _); reflexivity.
  - intros l0 ->. simpl. eexists. exists extra_l.
    split; [reflexivity|]. split; [exact Hx|]. reflexivity.
Qed.

Lemma Error_sinks_hub (a : alert.Alerter) (err : error)
    (opts : list alert.Option) (w : alert.World) (cxt : alert.Context_) :
  alert.Error_context opts alert.zeroContext = Returned cxt →
  ∃ log,
    alert.Error_sinks a err opts w =
      Returned
        ((alert.Error_tags (errutil_Refstr err) cxt
            (alert.Error_request cxt (alert.Error_hub a w) None).1 None).1,
         log, cxt).
Proof.
  intros Hcxt. unfold alert.Error_sinks. cbv zeta. rewrite Hcxt.
  unfold mbind, mret, outcome_bind, outcome_ret.
  unfold alert.Error_request, alert.Error_tags.
  destruct (alert.Request cxt), (decide (0 < len (alert.Tags cxt)));
    simpl; eexists; reflexivity.
Qed.

(** X14.  The per-call scope depends on the composed context through its
    request and its tags only: the extra data never reaches the scope.  In
    particular an extra-data option added at the end changes the payload of
    the context and leaves the scope as it would have been. *)
Theorem X14_extra_never_reaches_the_scope (a : alert.Alerter) (err : error)
    (opts opts' : list alert.Option) (w : alert.World)
    (cxt cxt' : alert.Context_) :
  alert.Error_context opts alert.zeroContext = Returned cxt →
  alert.Error_context opts' alert.zeroContext = Returned cxt' →
  alert.Request cxt = alert.Request cxt' →
  alert.Tags cxt = alert.Tags cxt' →
  ∃ h log log',
    alert.Error_sinks a err opts w = Returned (h, log, cxt)
    ∧ alert.Error_sinks a err opts' w = Returned (h, log', cxt')
    ∧ ∀ extra, ∃ log'',
        alert.Error_sinks a err (opts ++ [alert.WithExtra extra]) w =
          Returned (h, log'',
                    {| alert.Request := alert.Request cxt;
                       alert.Tags := alert.Tags cxt;
                       alert.Extra := extra |}).
Proof.
  intros Hcxt Hcxt' Hreq Htags.
  destruct (Error_sinks_hub a err opts w cxt Hcxt) as [log Hs].
  destruct (Error_sinks_hub a err opts' w cxt' Hcxt') as [log' Hs'].
  eexists. exists log, log'. split; [exact Hs|]. split.
  - rewrite Hs'. do 3 f_equal.
    unfold alert.Error_tags, alert.Error_request. rewrite Hreq, Htags.
    reflexivity.
  - intros extra.
    destruct (Error_sinks_hub a err (opts ++ [alert.WithExtra extra]) w
                {| alert.Request := alert.Request cxt;
                   alert.Tags := alert.Tags cxt;
                   alert.Extra := extra |}) as [log'' Hs''].
    { rewrite Error_context_app, Hcxt. reflexivity. }
    exists log''. rewrite Hs''. reflexivity.
Qed.

(** X15.  Errorf reports the error made by fmt.Errorf with an empty
    context, whatever the outcome: an event it submits travels with an exact
    copy of the current hub and has a nil extra payload, and a line it logs
    carries the attributes of the Alerter's logger, alert=error and the
    reference string when that is not empty, and nothing else. *)
Theorem X15_Errorf_reports_without_context (a : alert.Alerter) (f : string)
    (args : list any) (w w' : alert.World) (o : outcome ()) :
  alert.Alerter_Errorf a f args w = (o, w') →
  ∃ cs ls,
    alert.captured w' = alert.captured w ++ cs
    ∧ alert.logged w' = alert.logged w ++ ls
    ∧ Forall (λ he, he.1 = alert.current_hub w
                    ∧ sentry.Extra he.2 = None
                    ∧ sentry.Level_ he.2 = Some sentry.LevelError) cs
    ∧ Forall (λ r, slog.msg r = errors.Error (fmt_Errorf f args)
                   ∧ slog.level r = slog.LevelError
                   ∧ ∃ l0, alert.log a = Some l0
                           ∧ slog.handler (slog.logger r) = slog.handler l0
                           ∧ slog.attrs (slog.logger r) =
                               slog.attrs l0
                               ++ alert_attrs
                                    (errutil_Refstr (Some (fmt_Errorf f args))))
             ls.
Proof.
  unfold alert.Alerter_Errorf, alert.Alerter_Error. run_M.
  destruct (Error_sinks_received a (Some (fmt_Errorf f args)) [] w
              alert.zeroContext eq_refl)
    as (tags_h & tags_l & extra_l & Hh & Hl & Hx & ->).
  simpl in Hh, Hl, Hx. apply Permutation_nil_r in Hh, Hl, Hx.
  subst tags_h tags_l extra_l.
  unfold alert.captureError, alert.CaptureEvent, alert.Logger_Error. run_M.
  rewrite eventFromError_levels.
  generalize (levels alert.maxErrorDepth (Some (fmt_Errorf f args))).
  intros built.
  unfold alert.Error_log, alert_attrs, slog.With.
  destruct w as [sh [cl sc] cap lg]. simpl. rewrite ?app_nil_r.
  destruct (decide (errutil_Refstr (Some (fmt_Errorf f args)) ≠ ""));
    destruct (decide (errutil_Refstr (Some (fmt_Errorf f args)) = ""));
    try contradiction; try congruence.
  all: destruct (alert.sentry a); [destruct built|];
    (destruct (alert.verbose a); [destruct (alert.log a) as [[hd at0]|]|]);
    simpl; intros [= <- <-]; simpl;
    do 2 eexists;
    (split; [first [reflexivity | symmetry; apply app_nil_r]|]);
    (split; [first [reflexivity | symmetry; apply app_nil_r]|]);
    (split;
     [ first [ apply Forall_nil_2
             | apply Forall_cons_2; [repeat split | apply Forall_nil_2] ]
     | first [ apply Forall_nil_2
             | apply Forall_cons_2; [|apply Forall_nil_2] ] ]);
    (split; [reflexivity|]); (split; [reflexivity|]);
    eexists; (split; [reflexivity|]); (split; [reflexivity|]); simpl;
    rewrite ?app_nil_r, <- ?app_assoc; reflexivity.
Qed.

(** *** Options (option.go) *)

(** A field of the context follows the last option that addresses it. *)
Lemma Error_context_field {X} (get : alert.Context_ → X)
    (proj : mutator → option X) (ms : list mutator) (cxt : alert.Context_) :
  (∀ m c, get (mutation m c) = default (get c) (proj m)) →
  get (foldl (λ c m, mutation m c) cxt ms) =
    default (get cxt) (last (omap proj ms)).
Proof.
  intros Hget. revert cxt.
  induction ms as [|m ms IH]; intros cxt; [reflexivity|].
  cbn [foldl]. rewrite IH, Hget.
  change (omap proj (m :: ms))
    with (match proj m with
          | Some x => x :: omap proj ms
          | None => omap proj ms
          end).
  destruct (proj m) as [x|]; simpl; [|reflexivity].
  rewrite last_cons. destruct (last (omap proj ms)); reflexivity.
Qed.

Lemma omap_absent_kind {X} (proj : mutator → option X) (k : nat)
    (ms : list mutator) :
  (∀ m x, proj m = Some x → kind m = k) →
  k ∉ kind <$> ms → omap proj ms = [].
Proof.
  intros Hk. induction ms as [|m ms IH]; [reflexivity|].
  rewrite fmap_cons, not_elem_of_cons. intros [Hm Hms].
  change (omap proj (m :: ms))
    with (match proj m with
          | Some x => x :: omap proj ms
          | None => omap proj ms
          end).
  destruct (proj m) as [x|] eqn:Hx; [|exact (IH Hms)].
  apply Hk in Hx. congruence.
Qed.

Lemma omap_one_per_kind {X} (proj : mutator → option X) (k : nat)
    (ms : list mutator) :
  (∀ m x, proj m = Some x → kind m = k) →
  NoDup (kind <$> ms) → length (omap proj ms) ≤ 1.
Proof.
  intros Hk. induction ms as [|m ms IH]; [simpl; lia|].
  rewrite fmap_cons, NoDup_cons. intros [Hm Hms].
  change (omap proj (m :: ms))
    with (match proj m with
          | Some x => x :: omap proj ms
          | None => omap proj ms
          end).
  destruct (proj m) as [x|] eqn:Hx; [|exact (IH Hms)].
  apply Hk in Hx. rewrite Hx in Hm.
  rewrite (omap_absent_kind proj k ms Hk Hm). simpl. lia.
Qed.

Lemma short_Permutation {X} (l l' : list X) :
  length l ≤ 1 → l ≡ₚ l' → l = l'.
Proof.
  destruct l as [|x [|y l]]; simpl; intros Hlen Hperm; [| |lia].
  - apply Permutation_nil_l. exact Hperm.
  - apply Permutation_singleton_l. exact Hperm.
Qed.

Lemma Error_context_permuted_field {X} (get : alert.Context_ → X)
    (proj : mutator → option X) (k : nat) (ms ms' : list mutator)
    (cxt : alert.Context_) :
  (∀ m c, get (mutation m c) = default (get c) (proj m)) →
  (∀ m x, proj m = Some x → kind m = k) →
  NoDup (kind <$> ms) → ms ≡ₚ ms' →
  get (foldl (λ c m, mutation m c) cxt ms) =
    get (foldl (λ c m, mutation m c) cxt ms').
Proof.
  intros Hget Hk Hnd Hperm.
  rewrite !(Error_context_field get proj) by exact Hget.
  rewrite (short_Permutation (omap proj ms) (omap proj ms')); [reflexivity| |].
  - apply (omap_one_per_kind proj k); assumption.
  - rewrite Hperm. reflexivity.
Qed.

(** X16.  When no two of the supplied options are of the same kind
    (request, tags, extra), the order in which they are supplied does not
    matter: every reordering composes to the same context, from any starting
    context. *)
Theorem X16_distinct_options_commute (ms ms' : list mutator)
    (cxt : alert.Context_) :
  NoDup (kind <$> ms) → ms ≡ₚ ms' →
  alert.Error_context (mutate <$> ms) cxt =
    alert.Error_context (mutate <$> ms') cxt.
Proof.
  intros Hnd Hperm.
  pose proof (Error_context_permuted_field alert.Request request_of 0
                ms ms' cxt) as Hreq.
  pose proof (Error_context_permuted_field alert.Tags tags_of 1
                ms ms' cxt) as Htags.
  pose proof (Error_context_permuted_field alert.Extra extra_of 2
                ms ms' cxt) as Hextra.
  rewrite !Error_context_mutators. f_equal.
  destruct (foldl (λ c m, mutation m c) cxt ms) as [r t x],
           (foldl (λ c m, mutation m c) cxt ms') as [r' t' x'].
  simpl in *. f_equal.
  - apply Hreq; try assumption; [intros [] ?; reflexivity|].
    intros [] ? [=]; reflexivity.
  - apply Htags; try assumption; [intros [] ?; reflexivity|].
    intros [] ? [=]; reflexivity.
  - apply Hextra; try assumption; [intros [] ?; reflexivity|].
    intros [] ? [=]; reflexivity.
Qed.

(** *** The event builder, continued *)

Lemma levels_nonempty (n : nat) (e : errval) (ls : list (errval * errval)) :
  levels (S n) (Some e) = Some ls → 1 ≤ length ls.
Proof.
  simpl. destruct ((alert.extractStacktrace (Some e)).1); [|discriminate].
  destruct (levels n _); [|discriminate].
  intros [= <-]. simpl. lia.
Qed.

(** X17.  A built event has no exception when the error is nil, and between
    one and maxErrorDepth exceptions when it is not. *)
Theorem X17_exception_count_bounds (a : alert.Alerter) (err : error)
    (lvl : sentry.Level) (extra : gomap any) (ev : sentry.Event) :
  alert.eventFromError a err lvl extra = Returned ev →
  (err = None → sentry.Exception_ ev = [])
  ∧ (is_Some err → 1 ≤ length (sentry.Exception_ ev) ≤ alert.maxErrorDepth).
Proof.
  rewrite eventFromError_levels.
  destruct (levels alert.maxErrorDepth err) as [ls|] eqn:Hls; [|discriminate].
  intros [= <-]. cbn [sentry.Exception_]. split.
  - intros ->. cbn in Hls. injection Hls as <-. reflexivity.
  - intros [e ->]. rewrite length_rev, length_fmap.
    pose proof (levels_length _ _ _ Hls) as Hupper.
    split; [|lia].
    apply (levels_nonempty 2 e). exact Hls.
Qed.

(** X18.  Unwrap takes precedence over Cause: for an error without the
    frame-list capability whose Unwrap returns nil, unwinding stops there
    even when the error also exposes a Cause, and the event has the single
    exception describing that error, with the stack the tracker library
    extracts for it. *)
Theorem X18_Unwrap_shadows_Cause (a : alert.Alerter) (e : errval)
    (lvl : sentry.Level) (extra : gomap any) :
  errors.Frames e = None →
  errors.Unwrap e = Some None →
  ∃ ev, alert.eventFromError a (Some e) lvl extra = Returned ev
        ∧ sentry.Exception_ ev =
            [ {| sentry.Value := errors.Error e;
                 sentry.Type_ := errors.TypeOf e;
                 sentry.Stacktrace_ := sentry_ExtractStacktrace (Some e) |} ].
Proof.
  intros Hf Hu. rewrite eventFromError_levels.
  change alert.maxErrorDepth with 3. cbn [levels].
  unfold alert.extractStacktrace at 1. rewrite Hf. simpl.
  unfold alert.unwrapOrCause at 1. rewrite Hu. simpl.
  eexists. split; [reflexivity|]. simpl.
  unfold entry, alert.extractStacktrace. rewrite Hf. reflexivity.
Qed.

(** *** What the sinks end up with *)

(** X19.  With a tracker client and a non-empty tag map, the tag table of
    the per-call scope is the table of the current hub overridden by the
    tags, each with its value stringified, overridden in turn at the key ref
    by the reference string when that is not empty: so a tag supplied under
    the key ref is replaced by a non-empty reference string, and kept when
    the reference string is empty. *)
Theorem X19_tag_table_of_the_call (a : alert.Alerter) (c : sentry.Client)
    (err : error) (opts : list alert.Option) (w : alert.World)
    (cxt : alert.Context_) (tags : gmap string any) :
  alert.sentry a = Some c →
  alert.Error_context opts alert.zeroContext = Returned cxt →
  alert.Tags cxt = Some tags →
  0 < size tags →
  ∃ h log,
    alert.Error_sinks a err opts w = Returned (Some h, log, cxt)
    ∧ ∀ k,
        sentry.scope_tags (sentry.scope h) !! k =
          if decide (k = "ref" ∧ errutil_Refstr err ≠ "")
          then Some (errutil_Refstr err)
          else match tags !! k with
               | Some v => Some (fmt_Sprint v)
               | None =>
                   sentry.scope_tags (sentry.scope (alert.current_hub w)) !! k
               end.
Proof.
  intros Ha Hcxt Htags Hsize.
  destruct (Error_sinks_received a err opts w cxt Hcxt)
    as (tags_h & tags_l & extra_l & Hperm & _ & _ & ->).
  rewrite Ha, Htags in *. simpl in Hperm. simpl.
  do 2 eexists. split; [reflexivity|]. simpl.
  destruct (decide (0 < size tags)); [|contradiction].
  intros k. apply scope_table. exact Hperm.
Qed.

(** X20.  Under verbose logging with a logger, Error on an error whose chain
    is sound, with options that compose to a context, emits exactly one
    line, at the error level, whose message is the message of the error
    passed, and whose attributes are, in this order: those of the Alerter's
    logger, alert=error, ref=<reference string> when that is not empty, the
    two attributes of the request when there is one, the tags in some order,
    the extra data in some order. *)
Theorem X20_the_log_line (a : alert.Alerter) (l0 : slog.Logger) (e : errval)
    (opts : list alert.Option) (w : alert.World) (cxt : alert.Context_) :
  sound_chain e = true →
  alert.verbose a = true →
  alert.log a = Some l0 →
  alert.Error_context opts alert.zeroContext = Returned cxt →
  ∃ w' tags_l extra_l,
    alert.Alerter_Error a (Some e) opts w = (Returned (), w')
    ∧ tags_l ≡ₚ entries (alert.Tags cxt)
    ∧ extra_l ≡ₚ entries (alert.Extra cxt)
    ∧ alert.logged w' =
        alert.logged w ++
        [ {| slog.logger :=
               {| slog.handler := slog.handler l0;
                  slog.attrs :=
                    slog.attrs l0
                    ++ alert_attrs (errutil_Refstr (Some e))
                    ++ request_attrs cxt
                    ++ tags_l ++ extra_l |};
             slog.level := slog.LevelError;
             slog.msg := errors.Error e |} ].
Proof.
  intros Hsound Hv Hl0 Hcxt.
  destruct (Error_sinks_received a (Some e) opts w cxt Hcxt)
    as (tags_h & tags_l & extra_l & _ & Hl & Hx & Hsinks).
  destruct (Alerter_Error_dispatch a e opts w _ _ _
              (levels_sound alert.maxErrorDepth (Some e) Hsound) Hsinks)
    as (ev & _ & Hrun).
  rewrite Hrun. clear Hrun.
  eexists. exists tags_l, extra_l.
  split; [reflexivity|]. split; [exact Hl|]. split; [exact Hx|].
  simpl. unfold alert.Error_log, alert_attrs, slog.With. rewrite Hv, Hl0.
  destruct l0 as [hd at0].
  destruct (decide (errutil_Refstr (Some e) ≠ ""));
    destruct (decide (errutil_Refstr (Some e) = ""));
    try contradiction; try congruence;
    simpl; rewrite <- ?app_assoc; reflexivity.
Qed.
End further.

(** ** The further properties on concrete inputs *)

Section further_examples.
#[local] Existing Instance demo.runtime.
#[local] Existing Instance demo.libraries.

Lemma X3_witness_deep_chain :
  sound_chain demo.deep = true
  ∧ no_nil_option demo.opts = true
  ∧ ∃ w', alert.Alerter_Error demo.alerter (Some demo.deep) demo.opts demo.world
            = (Returned (), w')
          ∧ alert.shared w' = alert.shared demo.world
          ∧ alert.current_hub w' = alert.current_hub demo.world.
Proof.
  split; [reflexivity|]. split; [reflexivity|].
  destruct (X3_Error_returns_on_sound_chain demo.alerter demo.deep demo.opts
              demo.world eq_refl eq_refl)
    as (w' & h & log & cxt & _ & Hrun & Hs & Hh & _).
  exists w'. split; [exact Hrun|]. split; [exact Hs | exact Hh].
Defined.

Lemma X4_witness_nil_unwrap :
  alert.Alerter_Error demo.alerter (Some demo.traced_nil) demo.opts demo.world =
    (Panicked NilDereference, demo.world)
  ∧ NilDereference = NilDereference
  ∧ demo.world = demo.world
  ∧ (no_nil_option demo.opts = false
     ∨ (is_Some (alert.sentry demo.alerter)
        ∧ sound_chain demo.traced_nil = false)).
Proof.
  assert (alert.Alerter_Error demo.alerter (Some demo.traced_nil) demo.opts
            demo.world = (Panicked NilDereference, demo.world)) as Hrun
    by (vm_compute; reflexivity).
  split; [exact Hrun|].
  exact (X4_panic_leaves_no_trace demo.alerter demo.traced_nil demo.opts
           demo.world demo.world NilDereference Hrun).
Defined.

Lemma X5_witness_installed_alerter :
  alert.shared demo.world = Some demo.alerter
  ∧ alert.Default (alert.Init demo.config demo.world).2 = Some demo.alerter
  ∧ alert.Default
      (alert.Error (Some demo.traced_nil) demo.opts demo.world).2 =
      Some demo.alerter.
Proof.
  split; [reflexivity|].
  destruct (X5_installed_Alerter_is_never_replaced demo.alerter demo.world
              eq_refl) as (Hinit & Herror & _).
  split; [exact (Hinit demo.config)|].
  exact (proj1 (Herror (Some demo.traced_nil) demo.opts)).
Defined.

Lemma X6_witness_nil_error :
  no_nil_option demo.opts = true
  ∧ ∃ w', alert.Alerter_Error demo.alerter None demo.opts demo.world =
            (Panicked NilDereference, w')
          ∧ length (alert.captured w') = 1
          ∧ alert.logged w' = alert.logged demo.world.
Proof.
  split; [reflexivity|].
  destruct (X6_Error_on_nil_error demo.alerter demo.opts demo.world eq_refl)
    as (w' & h & log & cxt & Hsinks & Hrun & _ & _ & Hlogged & Hcaptured & Hhub).
  exists w'. split; [exact Hrun|]. split; [|exact Hlogged].
  rewrite Hcaptured. destruct (proj2 Hhub) as [h' ->]; [eexists; reflexivity|].
  reflexivity.
Defined.

Lemma X7_witness_logger_only :
  alert.sentry demo.logging = None
  ∧ no_nil_option demo.opts = true
  ∧ ∃ w', alert.Alerter_Error demo.logging (Some demo.traced_nil) demo.opts
            alert.initial = (Returned (), w')
          ∧ alert.captured w' = alert.captured alert.initial.
Proof.
  split; [reflexivity|]. split; [reflexivity|].
  destruct (X7_Error_without_tracker_returns demo.logging demo.traced_nil
              demo.opts alert.initial eq_refl eq_refl)
    as (w' & log & cxt & _ & Hrun & _ & _ & Hc & _).
  exists w'. split; [exact Hrun | exact Hc].
Defined.

Lemma X8_witness_no_sink :
  alert.sentry demo.silent = None
  ∧ (alert.verbose demo.silent = false ∨ alert.log demo.silent = None)
  ∧ no_nil_option demo.opts = true
  ∧ alert.Alerter_Error demo.silent None demo.opts alert.initial =
      (Returned (), alert.initial).
Proof.
  split; [reflexivity|]. split; [left; reflexivity|]. split; [reflexivity|].
  exact (X8_Error_without_sinks_does_nothing demo.silent None demo.opts
           alert.initial eq_refl (or_introl eq_refl) eq_refl).
Defined.

Lemma X21_witness_nil_option :
  no_nil_option demo.nil_opts = false
  ∧ alert.shared demo.world = Some demo.alerter
  ∧ alert.Alerter_Error demo.silent (Some demo.inner) demo.nil_opts
      alert.initial = (Panicked NilDereference, alert.initial)
  ∧ alert.Error (Some demo.inner) demo.nil_opts demo.world =
      (Panicked NilDereference, demo.world).
Proof.
  split; [reflexivity|]. split; [reflexivity|]. split.
  - exact (proj1 (X21_nil_option_panics demo.silent (Some demo.inner)
                    demo.nil_opts alert.initial eq_refl)).
  - exact (proj2 (X21_nil_option_panics demo.alerter (Some demo.inner)
                    demo.nil_opts demo.world eq_refl) eq_refl).
Defined.

Lemma X11_witness_first_Init :
  alert.shared alert.initial = None
  ∧ ∃ a w', alert.Init demo.config alert.initial = (Returned (), w')
            ∧ alert.Default w' = Some a
            ∧ alert.Error (Some demo.inner) demo.opts w' =
                alert.Alerter_Error a (Some demo.inner) demo.opts w'.
Proof.
  split; [reflexivity|].
  destruct (X11_Init_installs_then_forwards demo.config alert.initial eq_refl)
    as (a & w' & Hinit & _ & Hdefault & _ & _ & _ & Herror & _).
  exists a, w'. split; [exact Hinit|]. split; [exact Hdefault|].
  exact (Herror (Some demo.inner) demo.opts).
Defined.

Lemma X12_witness_request :
  alert.sentry demo.alerter = Some (sentry.MkClient 1)
  ∧ alert.Error_context demo.request_opts
      alert.zeroContext =
      Returned demo.request_cxt
  ∧ ∃ h log tag_calls,
      alert.Error_sinks demo.alerter (Some demo.inner)
        demo.request_opts demo.world
        = Returned (Some h, log, demo.request_cxt)
      ∧ sentry.scope h =
          sentry.scope (alert.current_hub demo.world)
          ++ [sentry.SetRequest demo.request;
              sentry.SetUser {| sentry.IPAddress := "1.2.3.4" |}]
          ++ tag_calls.
Proof.
  split; [reflexivity|]. split; [reflexivity|].
  destruct (X12_request_reaches_scope_and_logger demo.alerter
              (sentry.MkClient 1) (Some demo.inner)
              demo.request_opts demo.world
              demo.request_cxt eq_refl eq_refl)
    as (h & log & tag_calls & Hh & _ & _ & _ & Hreq).
  exists h, log, tag_calls. split; [exact Hh|].
  exact (proj1 (Hreq demo.request eq_refl)).
Defined.

Lemma X13_witness_no_tags :
  alert.sentry demo.alerter = Some (sentry.MkClient 1)
  ∧ alert.Error_context [] alert.zeroContext = Returned alert.zeroContext
  ∧ len (alert.Tags alert.zeroContext) = 0
  ∧ errutil_Refstr (Some demo.titled) = "Boom"
  ∧ ∃ h log,
      alert.Error_sinks demo.alerter (Some demo.titled) [] demo.world
        = Returned (Some h, log, alert.zeroContext)
      ∧ sentry.scope h = sentry.scope (alert.current_hub demo.world) ++ [].
Proof.
  split; [reflexivity|]. split; [reflexivity|]. split; [reflexivity|].
  split; [reflexivity|].
  destruct (X13_no_tags_no_ref_tag demo.alerter (sentry.MkClient 1)
              (Some demo.titled) [] demo.world alert.zeroContext
              eq_refl eq_refl eq_refl)
    as (h & log & Hh & Hscope & _).
  exists h, log. split; [exact Hh | exact Hscope].
Defined.

Lemma X14_witness_extra_option :
  alert.Error_context demo.opts alert.zeroContext = Returned demo.cxt
  ∧ alert.Error_context demo.extra_opts alert.zeroContext =
      Returned demo.extra_cxt
  ∧ ∃ h log log',
      alert.Error_sinks demo.alerter (Some demo.inner) demo.opts demo.world
        = Returned (h, log, demo.cxt)
      ∧ alert.Error_sinks demo.alerter (Some demo.inner)
          demo.extra_opts demo.world
        = Returned (h, log', demo.extra_cxt).
Proof.
  split; [reflexivity|]. split; [reflexivity|].
  destruct (X14_extra_never_reaches_the_scope demo.alerter (Some demo.inner)
              demo.opts demo.extra_opts
              demo.world demo.cxt
              demo.extra_cxt
              eq_refl eq_refl eq_refl eq_refl)
    as (h & log & log' & Hs & Hs' & _).
  exists h, log, log'. split; [exact Hs | exact Hs'].
Defined.

Lemma X15_witness_Errorf :
  alert.Alerter_Errorf demo.alerter "failed" [] demo.world =
    ((alert.Alerter_Errorf demo.alerter "failed" [] demo.world).1,
     (alert.Alerter_Errorf demo.alerter "failed" [] demo.world).2)
  ∧ ∃ cs, alert.captured
            (alert.Alerter_Errorf demo.alerter "failed" [] demo.world).2 =
            alert.captured demo.world ++ cs
          ∧ Forall (λ he, he.1 = alert.current_hub demo.world
                          ∧ sentry.Extra he.2 = None
                          ∧ sentry.Level_ he.2 = Some sentry.LevelError) cs.
Proof.
  assert (alert.Alerter_Errorf demo.alerter "failed" [] demo.world =
    ((alert.Alerter_Errorf demo.alerter "failed" [] demo.world).1,
     (alert.Alerter_Errorf demo.alerter "failed" [] demo.world).2)) as Hrun
    by (destruct (alert.Alerter_Errorf demo.alerter "failed" [] demo.world);
        reflexivity).
  split; [exact Hrun|].
  destruct (X15_Errorf_reports_without_context demo.alerter "failed" []
              demo.world _ _ Hrun) as (cs & ls & Hc & _ & Hall & _).
  exists cs. split; [exact Hc | exact Hall].
Defined.

Lemma X16_witness_swapped_options :
  NoDup (kind <$> [AttachTags (Some demo.tags); AttachRequest (Some demo.request)])
  ∧ [AttachTags (Some demo.tags); AttachRequest (Some demo.request)]
      ≡ₚ [AttachRequest (Some demo.request); AttachTags (Some demo.tags)]
  ∧ alert.Error_context
      (mutate <$> [AttachTags (Some demo.tags); AttachRequest (Some demo.request)])
      alert.zeroContext =
    alert.Error_context
      (mutate <$> [AttachRequest (Some demo.request); AttachTags (Some demo.tags)])
      alert.zeroContext.
Proof.
  assert (NoDup (kind <$> [AttachTags (Some demo.tags);
                           AttachRequest (Some demo.request)])) as Hnd.
  { simpl. apply NoDup_cons. split; [|apply NoDup_singleton].
    intros Hin%list_elem_of_singleton. discriminate. }
  assert ([AttachTags (Some demo.tags); AttachRequest (Some demo.request)]
            ≡ₚ [AttachRequest (Some demo.request); AttachTags (Some demo.tags)])
    as Hperm by apply perm_swap.
  split; [exact Hnd|]. split; [exact Hperm|].
  exact (X16_distinct_options_commute _ _ alert.zeroContext Hnd Hperm).
Defined.

Lemma X17_witness_deep_chain :
  ∃ ev, alert.eventFromError demo.alerter (Some demo.deep) sentry.LevelError None
          = Returned ev
        ∧ 1 ≤ length (sentry.Exception_ ev) ≤ alert.maxErrorDepth.
Proof.
  eexists. split; [vm_compute; reflexivity|].
  refine (proj2 (X17_exception_count_bounds demo.alerter (Some demo.deep)
                   sentry.LevelError None _ _) _);
    [vm_compute; reflexivity | eexists; reflexivity].
Defined.

Lemma X18_witness_unwrap_nil_with_cause :
  errors.Frames demo.both = None
  ∧ errors.Unwrap demo.both = Some None
  ∧ errors.Cause demo.both = Some (Some demo.inner)
  ∧ ∃ ev, alert.eventFromError demo.alerter (Some demo.both)
            sentry.LevelError None = Returned ev
          ∧ sentry.Exception_ ev =
              [ {| sentry.Value := "both";
                   sentry.Type_ := "*app.Both";
                   sentry.Stacktrace_ := None |} ].
Proof.
  do 3 (split; [reflexivity|]).
  exact (X18_Unwrap_shadows_Cause demo.alerter demo.both sentry.LevelError None
           eq_refl eq_refl).
Defined.

Lemma X19_witness_tag_table :
  alert.sentry demo.alerter = Some (sentry.MkClient 1)
  ∧ alert.Error_context demo.opts alert.zeroContext = Returned demo.cxt
  ∧ alert.Tags demo.cxt = Some demo.tags
  ∧ 0 < size demo.tags
  ∧ ∃ h log,
      alert.Error_sinks demo.alerter (Some demo.titled) demo.opts demo.world
        = Returned (Some h, log, demo.cxt)
      ∧ sentry.scope_tags (sentry.scope h) !! "n" = Some "3"
      ∧ sentry.scope_tags (sentry.scope h) !! "ref" = Some "Boom"
      ∧ sentry.scope_tags (sentry.scope h) !! "host" = Some "host1".
Proof.
  split; [reflexivity|]. split; [reflexivity|]. split; [reflexivity|].
  assert (0 < size demo.tags) as Hsize by (vm_compute; lia).
  split; [exact Hsize|].
  destruct (X19_tag_table_of_the_call demo.alerter (sentry.MkClient 1)
              (Some demo.titled) demo.opts demo.world demo.cxt demo.tags
              eq_refl eq_refl eq_refl Hsize) as (h & log & Hh & Htable).
  exists h, log. split; [exact Hh|].
  split; [exact (Htable "n")|]. split; [exact (Htable "ref") | exact (Htable "host")].
Defined.

Lemma X20_witness_log_line :
  sound_chain demo.titled = true
  ∧ alert.verbose demo.alerter = true
  ∧ is_Some (alert.log demo.alerter)
  ∧ alert.Error_context demo.opts alert.zeroContext = Returned demo.cxt
  ∧ ∃ w' r, alert.Alerter_Error demo.alerter (Some demo.titled) demo.opts
              demo.world = (Returned (), w')
            ∧ alert.logged w' = alert.logged demo.world ++ [r]
            ∧ slog.msg r = "boom".
Proof.
  split; [reflexivity|]. split; [reflexivity|]. split; [eexists; reflexivity|].
  split; [reflexivity|].
  destruct (X20_the_log_line demo.alerter _ demo.titled demo.opts demo.world
              demo.cxt eq_refl eq_refl eq_refl eq_refl)
    as (w' & tags_l & extra_l & Hrun & _ & _ & Hlogged).
  exists w'. eexists. split; [exact Hrun|]. split; [exact Hlogged | reflexivity].
Defined.

Lemma X9_witness_labelled_hub :
  alert.Sentry demo.config = Some (sentry.MkClient 1)
  ∧ sentry.client (alert.current_hub (alert.New demo.config alert.initial).2) =
      Some (sentry.MkClient 1)
  ∧ sentry.scope (alert.current_hub (alert.New demo.config alert.initial).2) =
      [sentry.SetTag "component" "api"; sentry.SetTag "host" "host1"].
Proof.
  split; [reflexivity|].
  exact (proj2 (proj2 (proj2 (proj2
           (X9_New_labels_the_current_hub demo.config alert.initial))))
           (sentry.MkClient 1) eq_refl).
Defined.

Lemma X10_witness_labelled_logger :
  alert.Logger demo.config = Some (slog.MkLogger 1 [])
  ∧ ∃ a l, (alert.New demo.config alert.initial).1 = Returned (Some a, None)
           ∧ alert.log a = Some l
           ∧ slog.attrs l =
               [("component", demo.VString "api"); ("host", demo.VString "host1")].
Proof.
  split; [reflexivity|].
  destruct (X10_New_copies_the_configuration demo.config alert.initial)
    as (a & Hnew & _ & _ & _ & _ & _ & _ & Hlog).
  destruct (Hlog _ eq_refl) as (l & Hl & _ & Hattrs).
  exists a, l. split; [exact Hnew|]. split; [exact Hl | exact Hattrs].
Defined.
End further_examples.
